(** * histogrammer: letter-frequency histogram of a text file

    A shallow embedding of [histogrammer.cpp] and the proofs of its
    specification.  The program is a single [main]: it checks its arguments,
    reads a file, counts the ASCII letters of the text into an
    [unordered_map<char, size_t>] while tracking the largest bin ([peak]), and
    draws the bins as [rows] lines of markers with a tick label every
    [tickStride] rows.

    - [size_t] values are integers of [Z] with the wrap-around modulo [2^64]
      written out where the source computes with them;
    - [double] values are IEEE 754 binary64 numbers (module [Binary64]): every
      operation returns the exact result rounded to nearest, ties to even;
    - [std::string] is [string]; the histogram is a [gmap ascii Z] read with a
      default of zero, as [operator[]] does;
    - undefined behaviour and uncaught exceptions are results of their own
      ([Fault]). *)

From Stdlib Require Import ZArith Lia Floats Ascii String.
From stdpp Require Import gmap strings.

Local Open Scope Z_scope.

(** ** IEEE 754 binary64 *)

Module Binary64.

(** Every finite binary64 number is an integer multiple of [2^-1074], the
    smallest subnormal.  [Fin n] is the number [n * 2^-1074]; the numbers that
    are floating-point values are those whose [n] has at most 53 significant
    bits.  The two zeros are not distinguished: the program never divides by
    zero and never produces a negative number. *)
Inductive double : Type :=
  | Fin (n : Z)
  | PInf
  | NInf
  | NaN.

(** [2^1074], the integer [1] in units of [2^-1074]. *)
Definition scale : Z := 2 ^ 1074.

(** [2^1024] in units of [2^-1074]: the first magnitude that is not finite. *)
Definition huge : Z := 2 ^ 2098.

(** Nearest integer to [n / d], ties to the even one ([0 < d]). *)
Definition rne (n d : Z) : Z :=
  let q := n / d in
  let r := n mod d in
  if 2 * r <? d then q
  else if d <? 2 * r then q + 1
  else if Z.even q then q else q + 1.

(** The exponent of the binade of [n / d]: the spacing of the floating-point
    numbers around [n / d] is [2 ^ binade n d] units.  It is one unit for the
    subnormals and the first normal binade. *)
Definition binade (n d : Z) : Z := Z.max 0 (Z.log2 (n / d) - 52).

(** Round the non-negative rational [n / d] (in units) to a 53-bit
    significand. *)
Definition round_pos (n d : Z) : Z :=
  let s := binade n d in rne n (d * 2 ^ s) * 2 ^ s.

(** Round to nearest even with overflow to infinity. *)
Definition round (n d : Z) : double :=
  if 0 <=? n then
    let m := round_pos n d in if m <? huge then Fin m else PInf
  else
    let m := round_pos (- n) d in if m <? huge then Fin (- m) else NInf.

(** Conversion of an integer ([static_cast<double>] and the implicit
    conversions of [size_t] operands). *)
Definition of_Z (k : Z) : double := round (k * scale) 1.

Definition fneg (x : double) : double :=
  match x with
  | Fin n => Fin (- n)
  | PInf => NInf
  | NInf => PInf
  | NaN => NaN
  end.

Definition signed_inf (positive : bool) : double := if positive then PInf else NInf.

Definition fdiv (x y : double) : double :=
  match x, y with
  | NaN, _ | _, NaN => NaN
  | Fin a, Fin b =>
      if b =? 0 then (if a =? 0 then NaN else signed_inf (0 <? a))
      else if 0 <? b then round (a * scale) b
      else round (- a * scale) (- b)
  | Fin _, _ => Fin 0
  | PInf, Fin b => signed_inf (0 <=? b)
  | NInf, Fin b => signed_inf (b <? 0)
  | _, _ => NaN
  end.

Definition fmul (x y : double) : double :=
  match x, y with
  | NaN, _ | _, NaN => NaN
  | Fin a, Fin b => round (a * b) scale
  | Fin a, PInf | PInf, Fin a => if a =? 0 then NaN else signed_inf (0 <? a)
  | Fin a, NInf | NInf, Fin a => if a =? 0 then NaN else signed_inf (a <? 0)
  | PInf, PInf | NInf, NInf => PInf
  | PInf, NInf | NInf, PInf => NInf
  end.

Definition fadd (x y : double) : double :=
  match x, y with
  | NaN, _ | _, NaN => NaN
  | Fin a, Fin b => round (a + b) 1
  | PInf, NInf | NInf, PInf => NaN
  | PInf, _ | _, PInf => PInf
  | NInf, _ | _, NInf => NInf
  end.

(** [x < y]; every comparison with a NaN is false. *)
Definition flt (x y : double) : bool :=
  match x, y with
  | NaN, _ | _, NaN => false
  | Fin a, Fin b => a <? b
  | _, NInf => false
  | NInf, _ => true
  | PInf, _ => false
  | Fin _, PInf => true
  end.

Definition fle (x y : double) : bool :=
  match x, y with
  | NaN, _ | _, NaN => false
  | Fin a, Fin b => a <=? b
  | NInf, _ => true
  | _, PInf => true
  | _, NInf => false
  | PInf, _ => false
  end.

(** [floor]: the largest integer not above [x]; it is always a floating-point
    number. *)
Definition floor (x : double) : double :=
  match x with
  | Fin n => Fin (n / scale * scale)
  | _ => x
  end.

(** The constant [0.5]. *)
Definition half : double := Fin (2 ^ 1073).

(** [log10] of the C library.  Annex F of the C standard fixes the results at
    the special values: [log10(0)] is minus infinity, [log10] of a negative
    number is a NaN, [log10] of plus infinity is plus infinity.  The result at
    a positive finite argument is as accurate as the library makes it, so the
    embedding takes that part, [libm], as a parameter. *)
Definition log10 (libm : Z -> double) (x : double) : double :=
  match x with
  | Fin n => if n =? 0 then NInf else if n <? 0 then NaN else libm n
  | PInf => PInf
  | NInf => NaN
  | NaN => NaN
  end.

(** The same numbers in the Standard Library's bit-level specification of
    binary64, to compare this module with the primitive floats. *)
Definition to_spec (x : double) : spec_float :=
  match x with
  | Fin n => binary_normalize prec emax n (-1074) false
  | PInf => S754_infinity false
  | NInf => S754_infinity true
  | NaN => S754_nan
  end.

End Binary64.

Import Binary64.

(** ** Results of fallible steps *)

(** What ends the program other than a [return] of [main]. *)
Inductive fault : Type :=
  | UB_float_cast      (* a double outside the range of size_t converted to size_t *)
  | UB_div_zero        (* [%] by zero *)
  | UB_index           (* [args[1]] past the end of the span *)
  | length_error.      (* uncaught std::length_error *)

Inductive res (A : Type) : Type :=
  | Ret (a : A)
  | Fault (f : fault).
Arguments Ret {A} a.
Arguments Fault {A} f.

Definition bind {A B : Type} (c : res A) (k : A -> res B) : res B :=
  match c with
  | Ret a => k a
  | Fault f => Fault f
  end.

Notation "'let*' x ':=' c 'in' k" := (bind c (fun x => k))
  (at level 10, x name, c at level 100, k at level 200).

(** ** Machine integers, characters and strings *)

Definition size_max : Z := 2 ^ 64 - 1.

(** Arithmetic of [size_t] and [unsigned long long] is modulo [2^64]. *)
Definition wrap (z : Z) : Z := z mod 2 ^ 64.

(** [std::string::max_size()]: a string cannot be made longer, the attempt
    throws [std::length_error] (libstdc++ on LP64). *)
Definition max_size : Z := 2 ^ 62 - 1.

Definition code (c : ascii) : Z := Z.of_N (N_of_ascii c).

(** [char] is signed: the conversion of a [char] to [int]. *)
Definition char_to_int (c : ascii) : Z :=
  if code c <? 128 then code c else code c - 256.

(** The conversion of an [int] to [char]. *)
Definition int_to_char (k : Z) : ascii := ascii_of_N (Z.to_N (k mod 256)).

(** [<cctype>] in the "C" locale, the only one the program runs in.  A byte
    above 127 is a negative [char]; it is no letter and no digit. *)
Definition isalpha (k : Z) : bool :=
  (65 <=? k) && (k <=? 90) || (97 <=? k) && (k <=? 122).

Definition tolower (k : Z) : Z :=
  if (65 <=? k) && (k <=? 90) then k + 32 else k.

Definition isdigit (k : Z) : bool := (48 <=? k) && (k <=? 57).

Definition nl : string := String (ascii_of_nat 10) "".
Definition tab : string := String (ascii_of_nat 9) "".
Definition dquote : string := String (ascii_of_nat 34) "".

(** [std::string(n, c)]. *)
Definition fill (n : Z) (c : ascii) : string :=
  string_of_list_ascii (repeat c (Z.to_nat n)).

Definition strlen (s : string) : Z := Z.of_nat (String.length s).

(** [std::to_string] of a [size_t]: at most twenty decimal digits. *)
Fixpoint to_string_from (fuel : nat) (n : Z) (acc : string) : string :=
  let acc' := String (int_to_char (48 + n mod 10)) acc in
  match fuel with
  | O => acc'
  | S fuel' => if n <? 10 then acc' else to_string_from fuel' (n / 10) acc'
  end.

Definition to_string (n : Z) : string := to_string_from 19 n "".

(** [s.insert(s.begin(), count, ' ')]. *)
Definition insert_spaces (count : Z) (s : string) : res string :=
  if count + strlen s <=? max_size then Ret (fill count " " +:+ s)
  else Fault length_error.

(** ** Counting (lines 84 to 94) *)

(** [hist[c]]: the bin of [c], zero when the map has no entry for it.  (The
    source's [operator[]] also adds the missing entry, with value zero, which
    no later read can tell from the entry being absent.) *)
Definition bin (hist : gmap ascii Z) (c : ascii) : Z := default 0 (hist !! c).

(** The body of the counting loop on the state [(hist, peak)]. *)
Definition count_char (st : gmap ascii Z * Z) (c : ascii) : gmap ascii Z * Z :=
  let '(hist, peak) := st in
  if isalpha (char_to_int c) then
    let k := int_to_char (tolower (char_to_int c)) in
    let b := wrap (bin hist k + 1) in
    (<[k := b]> hist, Z.max b peak)
  else st.

Definition count_letters (input : string) : gmap ascii Z * Z :=
  fold_left count_char (list_ascii_of_string input) (∅, 0).

(** [alphabet]: the integers ['a' + i] for [i] from 0 to 25. *)
Definition alphabet : list Z := (fun i => 97 + i) <$> seqZ 0 26.

(** ** Drawing (lines 96 to 130) *)

(** [static_cast<size_t>] of a double: the value truncated toward zero,
    undefined when that is not a [size_t]. *)
Definition cast_size (x : double) : res Z :=
  match x with
  | Fin n =>
      let t := Z.quot n scale in
      if (0 <=? t) && (t <=? size_max) then Ret t else Fault UB_float_cast
  | _ => Fault UB_float_cast
  end.

Definition digits (libm : Z -> double) (peak : Z) : res Z :=
  let* t := cast_size (floor (log10 libm (of_Z peak))) in
  Ret (wrap (t + 1)).

Definition rowFloor (rows peak r : Z) : double :=
  fmul (fdiv (of_Z r) (of_Z rows)) (of_Z peak).

Definition rowCeil (rows peak r : Z) : double :=
  fmul (fdiv (of_Z (wrap (r + 1))) (of_Z rows)) (of_Z peak).

Definition drawTick (rows tickStride r : Z) : res bool :=
  if tickStride =? 0 then Fault UB_div_zero
  else Ret (wrap (rows - 1 - r) mod tickStride =? 0).

(** [tickStr] before the padding. *)
Definition tickStr (rows tickStride peak r : Z) : res string :=
  let* tick := drawTick rows tickStride r in
  if (tick : bool) then
    let* v := cast_size (fmul half (fadd (rowFloor rows peak r) (rowCeil rows peak r))) in
    Ret (to_string v)
  else Ret ""%string.

(** [tickStr] after [tickStr.insert(tickStr.begin(), digits - tickStr.size(), ' ')]. *)
Definition tickField (d rows tickStride peak r : Z) : res string :=
  let* s := tickStr rows tickStride peak r in
  insert_spaces (wrap (d - strlen s)) s.

Definition marker (hist : gmap ascii Z) (floor_ : double) (c : Z) : ascii :=
  if flt floor_ (of_Z (bin hist (int_to_char c))) then "*"%char else " "%char.

Definition markers (hist : gmap ascii Z) (floor_ : double) : string :=
  string_of_list_ascii (marker hist floor_ <$> alphabet).

(** The text one iteration of the row loop writes. *)
Definition draw_row (d : Z) (hist : gmap ascii Z) (rows tickStride peak r : Z)
  : res string :=
  let* t := tickField d rows tickStride peak r in
  Ret (t +:+ "|" +:+ markers hist (rowFloor rows peak r) +:+ nl).

(** [vws::iota(0ULL, rows) | vws::reverse]. *)
Definition row_indices (rows : Z) : list Z := reverse (seqZ 0 rows).

(** A loop that writes one text per index: the output so far, and whether
    the loop ran to its end. *)
Fixpoint write_each (step : Z -> res string) (rs : list Z) : string * res unit :=
  match rs with
  | [] => (""%string, Ret tt)
  | r :: rs' =>
      match step r with
      | Ret line => let '(out, st) := write_each step rs' in (line +:+ out, st)
      | Fault f => (""%string, Fault f)
      end
  end.

Definition draw_rows (d : Z) (hist : gmap ascii Z) (rows tickStride peak : Z)
  : string * res unit :=
  write_each (draw_row d hist rows tickStride peak) (row_indices rows).

Definition abc : string := string_of_list_ascii (int_to_char <$> alphabet).

(** The horizontal axis (line 126). *)
Definition axis_line (d : Z) : res string :=
  if d <=? max_size
  then Ret (fill d " " +:+ "+" +:+ fill (Z.of_nat (length alphabet)) "-" +:+ nl)
  else Fault length_error.

(** The letters under the axis (lines 127 to 130). *)
Definition label_line (d : Z) : res string :=
  let* s := insert_spaces d ("|" +:+ abc) in
  Ret (s +:+ nl).

(** Lines 84 to 130: what is written, and whether the end was reached. *)
Definition core (libm : Z -> double) (input : string) (rows tickStride : Z)
  : string * res unit :=
  let '(hist, peak) := count_letters input in
  match digits libm peak with
  | Fault f => (""%string, Fault f)
  | Ret d =>
      match draw_rows d hist rows tickStride peak with
      | (out, Fault f) => (out, Fault f)
      | (out, Ret _) =>
          match axis_line d with
          | Fault f => (out, Fault f)
          | Ret l1 =>
              match label_line d with
              | Fault f => (out +:+ l1, Fault f)
              | Ret l2 => (out +:+ l1 +:+ l2, Ret tt)
              end
          end
      end
  end.

(** ** Arguments (lines 18 to 82) *)

Definition hint : string :=
  "Please provide a path to a text file as an argument, --help for more details" +:+ nl.

Definition usage : string :=
  "Usage: histogrammer input_file_path [OPTIONS]" +:+ nl +:+
  "Prints histogram of characters in text file at input_file_path" +:+ nl +:+
  "OPTIONS, any subset of the following:" +:+ nl +:+
  tab +:+ "-r row_count" +:+ tab +:+
  "override row_count, program draws row_count rows of text-based histogram, default = 10"
  +:+ nl +:+
  tab +:+ "-s tick_stride" +:+ tab +:+
  "override tick_stride, program draws a tick every tick_stride rows, default = 3"
  +:+ nl +:+
  "Arguments must be positive integers" +:+ nl.

Definition file_not_found (filename : string) : string :=
  "File " +:+ dquote +:+ filename +:+ dquote +:+ " not found" +:+ nl.

Definition invalid_argument_for (param : string) : string :=
  "Invalid argument for flag " +:+ param +:+ nl.

Definition missing_argument_for (param : string) : string :=
  "Missing argument for flag " +:+ param +:+ nl.

(** [std::errc] as [std::from_chars] returns it. *)
Inductive errc : Type :=
  | errc_ok
  | errc_invalid_argument
  | errc_result_out_of_range.

(** The values of the decimal digits [s] starts with. *)
Fixpoint leading_digits (s : string) : list Z :=
  match s with
  | EmptyString => []
  | String c s' =>
      if isdigit (char_to_int c) then (char_to_int c - 48) :: leading_digits s'
      else []
  end.

Definition decimal_value (ds : list Z) : Z :=
  fold_left (fun acc d => 10 * acc + d) ds 0.

(** [std::from_chars(s.data(), s.data() + s.size(), setting)] for a [size_t]:
    the error code and the value of [setting] afterwards.  The longest prefix
    of decimal digits is read, with no sign and no leading space; [setting]
    is written only on success. *)
Definition from_chars (s : string) (setting : Z) : errc * Z :=
  match leading_digits s with
  | [] => (errc_invalid_argument, setting)
  | ds =>
      if decimal_value ds <=? size_max then (errc_ok, decimal_value ds)
      else (errc_result_out_of_range, setting)
  end.

(** [rng::find(args, param)] followed by [it + 1]: the arguments after the
    first one equal to [param], if there is one. *)
Fixpoint after_flag (param : string) (args : list string) : option (list string) :=
  match args with
  | [] => None
  | a :: rest => if String.eqb a param then Some rest else after_flag param rest
  end.

Definition has_non_digit (s : string) : bool :=
  existsb (fun c => negb (isdigit (char_to_int c))) (list_ascii_of_string s).

(** The lambda [parseParam]: what it prints, what it returns, and the value of
    [setting] afterwards. *)
Definition parseParam (args : list string) (param : string) (setting : Z)
  : string * bool * Z :=
  match after_flag param args with
  | None => (""%string, true, setting)
  | Some [] => (missing_argument_for param, false, setting)
  | Some (s :: _) =>
      let '(ec, setting') := from_chars s setting in
      match ec with
      | errc_ok =>
          if has_non_digit s then (invalid_argument_for param, false, setting')
          else (""%string, true, setting')
      | _ => (invalid_argument_for param, false, setting')
      end
  end.

(** A run of the program: what it wrote to standard output, the files it
    tried to open, and how it ended, with the value [main] returned or with
    a fault. *)
Record run : Type := Run {
  output : string;
  opened : list string;
  status : res Z
}.

(** [main].  [fs] is the file system: the text of the file at a path when it
    can be opened.  [argv] holds the [argc] arguments. *)
Definition main (libm : Z -> double) (fs : string -> option string)
    (argv : list string) : run :=
  if Z.of_nat (length argv) =? 1 then Run hint [] (Ret 0)
  else if existsb (fun s => String.eqb s "--help") argv then Run usage [] (Ret 0)
  else
    match argv !! 1%nat with
    | None => Run "" [] (Fault UB_index)
    | Some filename =>
        match fs filename with
        | None => Run (file_not_found filename) [filename] (Ret 1)
        | Some input =>
            let '(out_r, ok_r, rows) := parseParam argv "-r" 10 in
            if negb ok_r then Run out_r [filename] (Ret 1)
            else
              let '(out_s, ok_s, tickStride) := parseParam argv "-s" 3 in
              if negb ok_s then Run (out_r +:+ out_s) [filename] (Ret 1)
              else
                let '(out, st) := core libm input rows tickStride in
                Run (out_r +:+ out_s +:+ out) [filename]
                    (match st with Ret _ => Ret 0 | Fault f => Fault f end)
        end
    end.

(** ** Vocabulary of the statements *)

(** The integers that are floating-point numbers (in units of [2^-1074]): a
    significand of at most 53 bits times a power of two. *)
Definition representable (n : Z) : Prop :=
  exists m s, 0 <= m <= 2 ^ 53 /\ 0 <= s /\ n = m * 2 ^ s.

(** A finite double that is not negative, and its value in units. *)
Definition nonneg_finite (x : double) : Prop :=
  match x with Fin n => 0 <= n | _ => False end.

Definition units (x : double) : Z :=
  match x with Fin n => n | _ => 0 end.

(** The double nearest to the integer [k], in units. *)
Definition nearest (k : Z) : Z := round_pos (k * scale) 1.

(** [r / rows] as the program computes it, in units. *)
Definition fraction (rows r : Z) : Z :=
  round_pos (nearest r * scale) (nearest rows).

(** The value of [rowFloor] in units. *)
Definition level (rows peak r : Z) : Z :=
  round_pos (fraction rows r * nearest peak) scale.

(** The value of [0.5 * (rowFloor + rowCeil)] in units. *)
Definition midpoint (rows peak r : Z) : Z :=
  round_pos (2 ^ 1073 * round_pos (level rows peak r + level rows peak (r + 1)) 1) scale.

(** [x] is [n] up to a relative error of [2^-e] ([0 <= n]). *)
Definition within (e x n : Z) : Prop :=
  2 ^ e * (x - n) <= n /\ 2 ^ e * (n - x) <= n.

(** The integer part of a non-negative finite double. *)
Definition integer_part (x : double) : Z := units x / scale.

Definition upper_case : string := "ABCDEFGHIJKLMNOPQRSTUVWXYZ".
Definition lower_case : string := "abcdefghijklmnopqrstuvwxyz".

(** The lowercase letter an ASCII letter stands for, read off the two
    alphabets; [None] for every other character. *)
Fixpoint fold_in (us ls : list ascii) (c : ascii) : option ascii :=
  match us, ls with
  | u :: us', l :: ls' =>
      if Ascii.eqb c u || Ascii.eqb c l then Some l else fold_in us' ls' c
  | _, _ => None
  end.

Definition fold_case (c : ascii) : option ascii :=
  fold_in (list_ascii_of_string upper_case) (list_ascii_of_string lower_case) c.

Definition is_letter (c : ascii) : Prop := fold_case c <> None.

(** How many characters of [l] are the letter [k] in either case. *)
Fixpoint occurrences (k : ascii) (l : list ascii) : Z :=
  match l with
  | [] => 0
  | c :: l' =>
      (if decide (fold_case c = Some k) then 1 else 0) + occurrences k l'
  end.

(** The largest of the 26 bins. *)
Definition max_bin (hist : gmap ascii Z) : Z :=
  foldr Z.max 0 (bin hist <$> list_ascii_of_string lower_case).

(** A flag value [std::from_chars] or the digit check refuses: empty, with a
    character that is not a decimal digit, or above [2^64 - 1]. *)
Definition decimal_digit (c : ascii) : Prop :=
  In c (list_ascii_of_string "0123456789").

Definition refused_value (v : string) : Prop :=
  v = ""%string
  \/ (exists c, In c (list_ascii_of_string v) /\ ~ decimal_digit c)
  \/ size_max < decimal_value (leading_digits v).

Definition has_help (argv : list string) : Prop := In "--help"%string argv.

(** The texts made of decimal digits only. *)
Definition all_digits (s : string) : Prop :=
  forall c, In c (list_ascii_of_string s) -> isdigit (char_to_int c) = true.

(** The setting a flag stands for: the value after its first occurrence, the
    default without one. *)
Definition setting_of (param : string) (default_ : Z) (argv : list string) : Z :=
  match after_flag param argv with
  | Some (v :: _) => decimal_value (leading_digits v)
  | _ => default_
  end.

Definition flag_fine (param : string) (argv : list string) : Prop :=
  match after_flag param argv with
  | Some (v :: _) => ~ refused_value v
  | Some [] => False
  | None => True
  end.

(** Whether row [r] has a tick. *)
Definition has_tick (rows tickStride r : Z) : bool :=
  match drawTick rows tickStride r with
  | Ret true => true
  | _ => false
  end.

(** The primitive floats of the machine, to compare [rowFloor] with. *)
Definition prim_of (k : Z) : float := PrimFloat.of_uint63 (Uint63.of_Z k).

Definition rowFloor_agrees (rows peak r : Z) : bool :=
  SFeqb (to_spec (rowFloor rows peak r))
        (Prim2SF (prim_of r / prim_of rows * prim_of peak)%float).

Definition midpoint_agrees (rows peak r : Z) : bool :=
  SFeqb (to_spec (fmul half (fadd (rowFloor rows peak r) (rowCeil rows peak r))))
        (Prim2SF (0.5 * (prim_of r / prim_of rows * prim_of peak
                         + prim_of (r + 1) / prim_of rows * prim_of peak))%float).

(** * Proofs *)

(** ** Rounding to nearest even *)

Section Rounding.

Lemma rne_mono n1 d1 n2 d2 :
  0 < d1 -> 0 < d2 -> n1 * d2 <= n2 * d1 -> rne n1 d1 <= rne n2 d2.
Proof.
  intros Hd1 Hd2 H. unfold rne.
  pose proof (Z.div_mod n1 d1 ltac:(lia)) as E1.
  pose proof (Z.div_mod n2 d2 ltac:(lia)) as E2.
  pose proof (Z.mod_pos_bound n1 d1 Hd1) as B1.
  pose proof (Z.mod_pos_bound n2 d2 Hd2) as B2.
  set (q1 := n1 / d1) in *. set (q2 := n2 / d2) in *.
  set (r1 := n1 mod d1) in *. set (r2 := n2 mod d2) in *.
  assert (Hq : q1 <= q2).
  { destruct (Z_le_gt_dec q1 q2) as [|Hgt]; [assumption|exfalso].
    assert (d1 * d2 * (q2 + 1) <= d1 * d2 * q1) by (apply Z.mul_le_mono_nonneg_l; nia).
    nia. }
  destruct (Z.eq_dec q1 q2) as [Heq|Hne].
  - assert (Hr : r1 * d2 <= r2 * d1) by nia.
    repeat match goal with |- context [?a <? ?b] => destruct (Z.ltb_spec a b) end;
      try destruct (Z.even q1) eqn:Ev1; try destruct (Z.even q2) eqn:Ev2; try lia; try nia;
      try (rewrite Heq in Ev1; congruence).
  - repeat match goal with |- context [?a <? ?b] => destruct (Z.ltb_spec a b) end;
      try destruct (Z.even q1); try destruct (Z.even q2); lia.
Qed.

Lemma div_le_cross n1 d1 n2 d2 :
  0 < d1 -> 0 < d2 -> n1 * d2 <= n2 * d1 -> n1 / d1 <= n2 / d2.
Proof.
  intros Hd1 Hd2 H.
  pose proof (Z.div_mod n1 d1 ltac:(lia)) as E1.
  pose proof (Z.div_mod n2 d2 ltac:(lia)) as E2.
  pose proof (Z.mod_pos_bound n1 d1 Hd1) as B1.
  pose proof (Z.mod_pos_bound n2 d2 Hd2) as B2.
  destruct (Z_le_gt_dec (n1 / d1) (n2 / d2)) as [|Hgt]; [assumption|exfalso].
  assert (d1 * d2 * (n2 / d2 + 1) <= d1 * d2 * (n1 / d1))
    by (apply Z.mul_le_mono_nonneg_l; nia).
  nia.
Qed.

Lemma rne_lower n d k : 0 < d -> k * d <= n -> k <= rne n d.
Proof.
  intros Hd H. unfold rne.
  assert (k <= n / d) by (apply Z.div_le_lower_bound; lia).
  repeat match goal with |- context [?a <? ?b] => destruct (Z.ltb_spec a b) end;
    try destruct (Z.even (n / d)); lia.
Qed.

Lemma rne_upper n d k : 0 < d -> n <= k * d -> rne n d <= k.
Proof.
  intros Hd H. unfold rne.
  pose proof (Z.div_mod n d ltac:(lia)) as E.
  pose proof (Z.mod_pos_bound n d Hd) as B.
  assert (n / d <= k) by (apply Z.div_le_upper_bound; lia).
  repeat match goal with |- context [?a <? ?b] => destruct (Z.ltb_spec a b) end;
    try destruct (Z.even (n / d)); try lia; nia.
Qed.

Lemma rne_exact k d : 0 < d -> rne (k * d) d = k.
Proof.
  intros Hd. unfold rne. rewrite Z.div_mul, Z.mod_mul by lia.
  destruct (Z.ltb_spec (2 * 0) d); lia.
Qed.

Lemma rne_scale c n d : 0 < c -> 0 < d -> rne (c * n) (c * d) = rne n d.
Proof.
  intros Hc Hd. unfold rne.
  rewrite Z.div_mul_cancel_l, Z.mul_mod_distr_l by lia.
  repeat match goal with |- context [?a <? ?b] => destruct (Z.ltb_spec a b) end;
    try reflexivity; nia.
Qed.

Lemma binade_nonneg n d : 0 <= binade n d.
Proof. unfold binade. lia. Qed.

Lemma binade_mono n1 d1 n2 d2 :
  0 < d1 -> 0 < d2 -> n1 * d2 <= n2 * d1 -> binade n1 d1 <= binade n2 d2.
Proof.
  intros Hd1 Hd2 H. unfold binade.
  pose proof (Z.log2_le_mono _ _ (div_le_cross _ _ _ _ Hd1 Hd2 H)). lia.
Qed.

Lemma binade_scale c n d : 0 < c -> 0 < d -> binade (c * n) (c * d) = binade n d.
Proof. intros. unfold binade. rewrite Z.div_mul_cancel_l by lia. reflexivity. Qed.

(* the scaled quotient stays below 2^53 *)
Lemma binade_upper n d : 0 <= n -> 0 < d -> n < 2 ^ (53 + binade n d) * d.
Proof.
  intros Hn Hd.
  assert (Hq : n / d < 2 ^ (53 + binade n d)).
  { destruct (Z.eq_dec (n / d) 0) as [->|Hz].
    - apply Z.pow_pos_nonneg; [lia|pose proof (binade_nonneg n d); lia].
    - assert (0 < n / d) by (pose proof (Z.div_pos n d Hn Hd); lia).
      pose proof (Z.log2_spec (n / d) ltac:(lia)) as [_ Hu].
      eapply Z.lt_le_trans; [exact Hu|].
      apply Z.pow_le_mono_r; [lia|]. unfold binade. lia. }
  pose proof (Z.div_mod n d ltac:(lia)) as E.
  pose proof (Z.mod_pos_bound n d Hd) as B. nia.
Qed.

(* in a binade above the lowest one the scaled quotient is at least 2^52 *)
Lemma binade_lower n d : 0 < d -> 0 < binade n d -> 2 ^ (52 + binade n d) * d <= n.
Proof.
  intros Hd Hs. unfold binade in *.
  assert (Hl : 52 < Z.log2 (n / d)) by lia.
  assert (0 < n / d) by (destruct (Z.log2_null (n / d)) as [_ Hn]; 
     destruct (Z_lt_le_dec 0 (n / d)); [assumption|rewrite Hn in Hl by lia; lia]).
  pose proof (Z.log2_spec (n / d) ltac:(lia)) as [Hlo _].
  replace (52 + Z.max 0 (Z.log2 (n / d) - 52)) with (Z.log2 (n / d)) by lia.
  pose proof (Z.div_mod n d ltac:(lia)) as E.
  pose proof (Z.mod_pos_bound n d Hd) as B. nia.
Qed.

Lemma round_pos_mono n1 d1 n2 d2 :
  0 <= n1 -> 0 < d1 -> 0 < d2 -> n1 * d2 <= n2 * d1 ->
  round_pos n1 d1 <= round_pos n2 d2.
Proof.
  intros Hn Hd1 Hd2 H. unfold round_pos.
  pose proof (binade_mono _ _ _ _ Hd1 Hd2 H) as Hs.
  pose proof (binade_nonneg n1 d1) as Hs1.
  set (s1 := binade n1 d1) in *. set (s2 := binade n2 d2) in *.
  assert (P1 : 0 < 2 ^ s1) by (apply Z.pow_pos_nonneg; lia).
  assert (P2 : 0 < 2 ^ s2) by (apply Z.pow_pos_nonneg; lia).
  destruct (Z.eq_dec s1 s2) as [Heq|Hne].
  - rewrite <- Heq. apply Z.mul_le_mono_nonneg_r; [lia|].
    apply rne_mono; nia.
  - assert (U : rne n1 (d1 * 2 ^ s1) <= 2 ^ 53).
    { apply rne_upper; [nia|].
      pose proof (binade_upper n1 d1 Hn Hd1) as B. fold s1 in B.
      rewrite Z.pow_add_r in B by lia. nia. }
    assert (L : 2 ^ 52 <= rne n2 (d2 * 2 ^ s2)).
    { apply rne_lower; [nia|].
      pose proof (binade_lower n2 d2 Hd2 ltac:(fold s2; lia)) as B. fold s2 in B.
      rewrite Z.pow_add_r in B by lia. nia. }
    assert (E : 2 ^ s2 = 2 ^ (s2 - s1) * 2 ^ s1)
      by (rewrite <- Z.pow_add_r by lia; f_equal; lia).
    assert (K : 2 ^ 1 <= 2 ^ (s2 - s1)) by (apply Z.pow_le_mono_r; lia).
    apply Z.le_trans with (2 ^ 53 * 2 ^ s1); [nia|].
    apply Z.le_trans with (2 ^ 52 * 2 ^ s2); [|nia].
    rewrite E. change (2 ^ 53) with (2 ^ 52 * 2 ^ 1). nia.
Qed.

Lemma representable_multiple n :
  representable n -> exists k, n = k * 2 ^ binade n 1.
Proof.
  intros (m & s' & Hm & Hs' & ->).
  destruct (Z.eq_dec m 0) as [->|Hm0]; [exists 0; lia|].
  unfold binade. rewrite Z.div_1_r, Z.log2_mul_pow2 by lia.
  destruct (Z_le_gt_dec (Z.max 0 (s' + Z.log2 m - 52)) s') as [Hle|Hgt].
  - exists (m * 2 ^ (s' - Z.max 0 (s' + Z.log2 m - 52))).
    rewrite <- Z.mul_assoc, <- Z.pow_add_r by lia. do 2 f_equal. lia.
  - assert (Hl : Z.log2 m <= 53)
      by (rewrite <- (Z.log2_pow2 53) by lia; apply Z.log2_le_mono; lia).
    pose proof (Z.log2_spec m ltac:(lia)) as [Hlo _].
    assert (Z.log2 m = 53) by lia.
    assert (m = 2 ^ 53) by (rewrite H in Hlo; lia). subst m.
    replace (Z.max 0 (s' + Z.log2 (2 ^ 53) - 52)) with (s' + 1) by lia.
    exists (2 ^ 52). rewrite Z.pow_add_r by lia. change (2 ^ 53) with (2 ^ 52 * 2 ^ 1). lia.
Qed.

Lemma round_pos_exact n : representable n -> round_pos n 1 = n.
Proof.
  intros Hr. destruct (representable_multiple n Hr) as [k Hk].
  unfold round_pos. rewrite Z.mul_1_l.
  assert (0 < 2 ^ binade n 1) by (apply Z.pow_pos_nonneg; [lia|apply binade_nonneg]).
  set (s := binade n 1) in *. clearbody s. subst n.
  rewrite rne_exact by assumption. reflexivity.
Qed.

Lemma round_pos_scale c n d : 0 < c -> 0 < d -> round_pos (c * n) (c * d) = round_pos n d.
Proof.
  intros Hc Hd. unfold round_pos. rewrite binade_scale by assumption.
  rewrite <- Z.mul_assoc, rne_scale; [reflexivity|assumption|].
  apply Z.mul_pos_pos; [assumption|apply Z.pow_pos_nonneg; [lia|apply binade_nonneg]].
Qed.

Lemma round_pos_representable n d : 0 <= n -> 0 < d -> representable (round_pos n d).
Proof.
  intros Hn Hd. unfold round_pos.
  pose proof (binade_nonneg n d) as Hs.
  assert (0 < 2 ^ binade n d) by (apply Z.pow_pos_nonneg; lia).
  exists (rne n (d * 2 ^ binade n d)), (binade n d). split; [split|split; [assumption|reflexivity]].
  - apply (rne_lower _ _ 0); nia.
  - apply rne_upper; [nia|].
    pose proof (binade_upper n d Hn Hd) as B.
    rewrite Z.pow_add_r in B by lia. nia.
Qed.

Lemma round_pos_nonneg n d : 0 <= n -> 0 < d -> 0 <= round_pos n d.
Proof.
  intros Hn Hd. destruct (round_pos_representable n d Hn Hd) as (m & s & Hm & Hs & ->).
  assert (0 < 2 ^ s) by (apply Z.pow_pos_nonneg; lia). nia.
Qed.

(* rounding never crosses a representable bound *)
Lemma round_pos_le n d b :
  0 <= n -> 0 < d -> representable b -> n <= b * d -> round_pos n d <= b.
Proof.
  intros Hn Hd Hb H. rewrite <- (round_pos_exact b Hb).
  apply round_pos_mono; lia.
Qed.

Lemma round_pos_ge n d b :
  0 <= b -> 0 < d -> representable b -> b * d <= n -> b <= round_pos n d.
Proof.
  intros Hn Hd Hb H. rewrite <- (round_pos_exact b Hb) at 1.
  apply round_pos_mono; lia.
Qed.

End Rounding.

(** ** The operations on the numbers the program computes with *)

Lemma scale_pos : 0 < scale.
Proof. reflexivity. Qed.

Lemma huge_scale : huge = 2 ^ 1024 * scale.
Proof. reflexivity. Qed.

Lemma scale_half : scale = 2 * 2 ^ 1073.
Proof. reflexivity. Qed.

Lemma representable_int k : 0 <= k <= 2 ^ 53 -> representable (k * scale).
Proof. intros H. exists k, 1074. split; [assumption|split; [lia|reflexivity]]. Qed.

Lemma representable_pow2 s : 0 <= s -> representable (2 ^ s).
Proof. intros H. exists 1, s. split; [lia|split; [assumption|lia]]. Qed.

Lemma representable_twice n : representable n -> representable (2 * n).
Proof.
  intros (m & s & Hm & Hs & ->). exists m, (s + 1).
  split; [assumption|split; [lia|]]. rewrite Z.pow_add_r by lia. lia.
Qed.

Lemma representable_nonneg n : representable n -> 0 <= n.
Proof.
  intros (m & s & Hm & Hs & ->).
  assert (0 < 2 ^ s) by (apply Z.pow_pos_nonneg; lia). nia.
Qed.

Lemma round_fin n d :
  0 <= n -> round_pos n d < huge -> round n d = Fin (round_pos n d).
Proof.
  intros Hn Hb. unfold round.
  destruct (Z.leb_spec 0 n); [|lia].
  destruct (Z.ltb_spec (round_pos n d) huge); [reflexivity|lia].
Qed.

Lemma nearest_representable k : 0 <= k -> representable (nearest k).
Proof.
  intros Hk. apply round_pos_representable; [|lia].
  pose proof scale_pos. nia.
Qed.

Lemma nearest_mono j k : 0 <= j <= k -> nearest j <= nearest k.
Proof.
  intros H. apply round_pos_mono; try lia; pose proof scale_pos; nia.
Qed.

Lemma nearest_exact k : 0 <= k <= 2 ^ 53 -> nearest k = k * scale.
Proof.
  intros H. apply round_pos_exact, representable_int, H.
Qed.

Lemma nearest_upper k : 0 <= k <= 2 ^ 64 -> nearest k <= 2 ^ 64 * scale.
Proof.
  intros H. apply round_pos_le; [pose proof scale_pos; nia|lia| |pose proof scale_pos; nia].
  exists 1, 1138. split; [lia|split; [lia|reflexivity]].
Qed.

Lemma nearest_lower k : 1 <= k -> scale <= nearest k.
Proof.
  intros H. apply round_pos_ge; [pose proof scale_pos; lia|lia| |pose proof scale_pos; nia].
  apply (representable_pow2 1074). lia.
Qed.

Lemma nearest_below_huge k : 0 <= k <= 2 ^ 64 -> 2 * nearest k < huge.
Proof.
  intros H. pose proof (nearest_upper k H). rewrite huge_scale.
  pose proof scale_pos.
  assert (2 * (2 ^ 64 * scale) < 2 ^ 1024 * scale); [|lia].
  replace (2 * (2 ^ 64 * scale)) with (2 ^ 65 * scale) by lia.
  apply Z.mul_lt_mono_pos_r; [assumption|reflexivity].
Qed.

Lemma of_Z_fin k : 0 <= k <= size_max -> of_Z k = Fin (nearest k).
Proof.
  intros H. unfold size_max in H. unfold of_Z. apply round_fin.
  - pose proof scale_pos. nia.
  - pose proof (nearest_below_huge k ltac:(lia)).
    pose proof (representable_nonneg _ (nearest_representable k ltac:(lia))).
    unfold nearest in *. lia.
Qed.

(** A quotient of two non-negative doubles, the divisor not below the
    dividend: a number between 0 and 1. *)
Lemma fdiv_ratio a b :
  0 <= a <= b -> 0 < b ->
  fdiv (Fin a) (Fin b) = Fin (round_pos (a * scale) b)
  /\ 0 <= round_pos (a * scale) b <= scale.
Proof.
  intros Ha Hb. pose proof scale_pos as Hs.
  assert (Hn : 0 <= a * scale) by nia.
  assert (Hu : round_pos (a * scale) b <= scale).
  { apply round_pos_le; [assumption|assumption|apply (representable_pow2 1074); lia|nia]. }
  pose proof (round_pos_nonneg (a * scale) b Hn Hb).
  split; [|lia]. unfold fdiv.
  destruct (Z.eqb_spec b 0); [lia|].
  destruct (Z.ltb_spec 0 b); [|lia].
  apply round_fin; [assumption|].
  eapply Z.le_lt_trans; [exact Hu|reflexivity].
Qed.

(** The product of a number between 0 and 1 with a double is not above it. *)
Lemma fmul_fraction q p :
  0 <= q <= scale -> representable p -> p < huge ->
  fmul (Fin q) (Fin p) = Fin (round_pos (q * p) scale)
  /\ 0 <= round_pos (q * p) scale <= p.
Proof.
  intros Hq Hp Hb. pose proof scale_pos as Hs.
  pose proof (representable_nonneg p Hp) as Hp0.
  assert (Hn : 0 <= q * p) by nia.
  assert (Hu : round_pos (q * p) scale <= p)
    by (apply round_pos_le; [assumption|assumption|assumption|nia]).
  pose proof (round_pos_nonneg (q * p) scale Hn Hs).
  split; [|lia]. unfold fmul. apply round_fin; [assumption|lia].
Qed.

(** The sum of two doubles between 0 and [p] is not above [2 p]. *)
Lemma fadd_bounded a b p :
  0 <= a <= p -> 0 <= b <= p -> representable p -> 2 * p < huge ->
  fadd (Fin a) (Fin b) = Fin (round_pos (a + b) 1)
  /\ 0 <= round_pos (a + b) 1 <= 2 * p.
Proof.
  intros Ha Hb Hp Hh.
  assert (Hu : round_pos (a + b) 1 <= 2 * p)
    by (apply round_pos_le; [lia|lia|apply representable_twice, Hp|lia]).
  pose proof (round_pos_nonneg (a + b) 1 ltac:(lia) ltac:(lia)).
  split; [|lia]. unfold fadd. apply round_fin; lia.
Qed.

(** Half of a double between 0 and [2 p] is not above [p]. *)
Lemma fmul_half s p :
  0 <= s <= 2 * p -> representable p -> p < huge ->
  fmul half (Fin s) = Fin (round_pos (2 ^ 1073 * s) scale)
  /\ 0 <= round_pos (2 ^ 1073 * s) scale <= p.
Proof.
  intros Hs Hp Hh. pose proof scale_pos as Hsc.
  assert (Hn : 0 <= 2 ^ 1073 * s) by (assert (0 < 2 ^ 1073) by reflexivity; nia).
  assert (Hu : round_pos (2 ^ 1073 * s) scale <= p).
  { apply round_pos_le; [assumption|assumption|assumption|].
    rewrite scale_half. assert (0 < 2 ^ 1073) by reflexivity. nia. }
  pose proof (round_pos_nonneg _ scale Hn Hsc).
  split; [|lia]. unfold fmul, half. apply round_fin; [assumption|lia].
Qed.

(** ** The bounds of a row *)

Section Rows.

Variables rows peak : Z.
Hypothesis rows_range : 1 <= rows <= size_max.
Hypothesis peak_range : 0 <= peak <= size_max.

Lemma fraction_range r : 0 <= r <= rows -> 0 <= fraction rows r <= scale.
Proof.
  intros Hr. unfold size_max in *.
  pose proof (nearest_mono r rows ltac:(lia)).
  pose proof (nearest_lower rows ltac:(lia)).
  pose proof (representable_nonneg _ (nearest_representable r ltac:(lia))).
  pose proof scale_pos.
  apply (fdiv_ratio (nearest r) (nearest rows)); lia.
Qed.

Lemma fraction_mono r' r : 0 <= r' <= r -> fraction rows r' <= fraction rows r.
Proof.
  intros Hr. unfold size_max in *.
  pose proof (nearest_mono r' r ltac:(lia)).
  pose proof (nearest_lower rows ltac:(lia)).
  pose proof (representable_nonneg _ (nearest_representable r' ltac:(lia))).
  pose proof scale_pos.
  apply round_pos_mono; [apply Z.mul_nonneg_nonneg; lia|lia|lia|].
  apply Z.mul_le_mono_nonneg_r; [lia|].
  apply Z.mul_le_mono_nonneg_r; lia.
Qed.

Lemma peak_below_huge : nearest peak < huge.
Proof.
  unfold size_max in *.
  pose proof (nearest_below_huge peak ltac:(lia)).
  pose proof (representable_nonneg _ (nearest_representable peak ltac:(lia))). lia.
Qed.

Lemma level_range r : 0 <= r <= rows -> 0 <= level rows peak r <= nearest peak.
Proof.
  intros Hr.
  apply (fmul_fraction (fraction rows r) (nearest peak)).
  - apply fraction_range, Hr.
  - apply nearest_representable; lia.
  - apply peak_below_huge.
Qed.

Lemma level_mono r' r :
  0 <= r' <= r -> r <= rows -> level rows peak r' <= level rows peak r.
Proof.
  intros Hr Hle.
  pose proof (fraction_mono r' r Hr).
  pose proof (fraction_range r' ltac:(lia)).
  pose proof (representable_nonneg _ (nearest_representable peak ltac:(lia))).
  pose proof scale_pos.
  apply round_pos_mono; [apply Z.mul_nonneg_nonneg; lia|lia|lia|].
  apply Z.mul_le_mono_nonneg_r; [lia|].
  apply Z.mul_le_mono_nonneg_r; lia.
Qed.

Lemma rowFloor_level r :
  0 <= r <= rows -> rowFloor rows peak r = Fin (level rows peak r).
Proof.
  intros Hr. unfold rowFloor, size_max in *.
  rewrite !of_Z_fin by (unfold size_max; lia).
  pose proof scale_pos.
  pose proof (nearest_mono r rows ltac:(lia)).
  pose proof (nearest_lower rows ltac:(lia)).
  pose proof (representable_nonneg _ (nearest_representable r ltac:(lia))).
  destruct (fdiv_ratio (nearest r) (nearest rows)) as [-> Hq]; [lia|lia|].
  apply (fmul_fraction _ (nearest peak)); [exact Hq| |].
  - apply nearest_representable; lia.
  - apply peak_below_huge.
Qed.

Lemma rowCeil_level r :
  0 <= r < rows -> rowCeil rows peak r = Fin (level rows peak (r + 1)).
Proof.
  intros Hr. unfold rowCeil, wrap. unfold size_max in *.
  rewrite Z.mod_small by lia.
  apply (rowFloor_level (r + 1)); lia.
Qed.

Lemma midpoint_range r : 0 <= r < rows -> 0 <= midpoint rows peak r <= nearest peak.
Proof.
  intros Hr. unfold size_max in *.
  pose proof (level_range r ltac:(lia)) as H1.
  pose proof (level_range (r + 1) ltac:(lia)) as H2.
  pose proof (nearest_representable peak ltac:(lia)) as Hp.
  pose proof (nearest_below_huge peak ltac:(lia)) as Hh.
  destruct (fadd_bounded _ _ _ H1 H2 Hp Hh) as [_ Hs].
  apply (fmul_half _ (nearest peak) Hs Hp). apply peak_below_huge.
Qed.

Lemma midpoint_value r :
  0 <= r < rows ->
  fmul half (fadd (rowFloor rows peak r) (rowCeil rows peak r))
  = Fin (midpoint rows peak r).
Proof.
  intros Hr. unfold size_max in *.
  rewrite rowFloor_level, rowCeil_level by lia.
  pose proof (level_range r ltac:(lia)) as H1.
  pose proof (level_range (r + 1) ltac:(lia)) as H2.
  pose proof (nearest_representable peak ltac:(lia)) as Hp.
  pose proof (nearest_below_huge peak ltac:(lia)) as Hh.
  destruct (fadd_bounded _ _ _ H1 H2 Hp Hh) as [-> Hs].
  apply (fmul_half _ (nearest peak) Hs Hp). apply peak_below_huge.
Qed.

End Rows.

(** ** The error of a row's bounds *)

Lemma round_pos_zero d : 0 < d -> round_pos 0 d = 0.
Proof.
  intros Hd. apply Z.le_antisymm.
  - apply (round_pos_le 0 d 0); [lia|assumption| |lia].
    exists 0, 0. lia.
  - apply round_pos_nonneg; lia.
Qed.

Lemma nearest_zero : nearest 0 = 0.
Proof. rewrite nearest_exact by lia. reflexivity. Qed.

Lemma rne_error n d :
  0 < d -> 2 * (rne n d * d - n) <= d /\ 2 * (n - rne n d * d) <= d.
Proof.
  intros Hd. unfold rne.
  pose proof (Z.div_mod n d ltac:(lia)) as E.
  pose proof (Z.mod_pos_bound n d Hd) as B.
  set (q := n / d) in *. set (r := n mod d) in *.
  repeat match goal with |- context [?a <? ?b] => destruct (Z.ltb_spec a b) end;
    try destruct (Z.even q); nia.
Qed.

(** Rounding a number of the normal range moves it by at most [2^-53] of
    itself. *)
Lemma round_pos_error n d :
  0 < d -> 2 ^ 52 * d <= n ->
  2 ^ 53 * (round_pos n d * d - n) <= n /\ 2 ^ 53 * (n - round_pos n d * d) <= n.
Proof.
  intros Hd Hn. unfold round_pos.
  pose proof (binade_nonneg n d) as Hs.
  set (s := binade n d) in *.
  assert (P : 0 < 2 ^ s) by (apply Z.pow_pos_nonneg; lia).
  assert (L : 2 ^ 52 * (d * 2 ^ s) <= n).
  { destruct (Z.eq_dec s 0) as [E|E].
    - rewrite E. rewrite Z.pow_0_r, Z.mul_1_r. exact Hn.
    - pose proof (binade_lower n d Hd ltac:(fold s; lia)) as B. fold s in B.
      rewrite Z.pow_add_r in B by lia. lia. }
  destruct (rne_error n (d * 2 ^ s) ltac:(nia)) as [U1 U2].
  set (m := rne n (d * 2 ^ s)) in *.
  replace (m * 2 ^ s * d) with (m * (d * 2 ^ s)) by ring.
  set (D := d * 2 ^ s) in *.
  change (2 ^ 53) with (2 ^ 52 * 2). split; nia.
Qed.

Lemma within_zero e : within e 0 0.
Proof. unfold within. lia. Qed.

Lemma within_level F Q rows r p sc :
  0 < sc -> 0 <= rows -> 0 <= p -> 0 <= r ->
  2 ^ 53 * (Q * rows - r * sc) <= r * sc ->
  2 ^ 53 * (r * sc - Q * rows) <= r * sc ->
  2 ^ 53 * (F * sc - Q * (p * sc)) <= Q * (p * sc) ->
  2 ^ 53 * (Q * (p * sc) - F * sc) <= Q * (p * sc) ->
  within 51 (F * rows) (r * p * sc).
Proof.
  intros Hs Hrows Hp Hr Q1 Q2 F1 F2.
  assert (Hps : 0 <= p * sc) by nia.
  assert (W1 : 2 ^ 53 * (Q * rows * (p * sc) - r * sc * (p * sc))
               <= r * sc * (p * sc)).
  { replace (2 ^ 53 * (Q * rows * (p * sc) - r * sc * (p * sc)))
      with (2 ^ 53 * (Q * rows - r * sc) * (p * sc)) by ring.
    apply Z.mul_le_mono_nonneg_r; lia. }
  assert (W2 : 2 ^ 53 * (r * sc * (p * sc) - Q * rows * (p * sc))
               <= r * sc * (p * sc)).
  { replace (2 ^ 53 * (r * sc * (p * sc) - Q * rows * (p * sc)))
      with (2 ^ 53 * (r * sc - Q * rows) * (p * sc)) by ring.
    apply Z.mul_le_mono_nonneg_r; lia. }
  assert (Z1 : 2 ^ 53 * (F * sc * rows - Q * rows * (p * sc))
               <= Q * rows * (p * sc)).
  { replace (2 ^ 53 * (F * sc * rows - Q * rows * (p * sc)))
      with (2 ^ 53 * (F * sc - Q * (p * sc)) * rows) by ring.
    replace (Q * rows * (p * sc)) with (Q * (p * sc) * rows) by ring.
    apply Z.mul_le_mono_nonneg_r; lia. }
  assert (Z2 : 2 ^ 53 * (Q * rows * (p * sc) - F * sc * rows)
               <= Q * rows * (p * sc)).
  { replace (2 ^ 53 * (Q * rows * (p * sc) - F * sc * rows))
      with (2 ^ 53 * (Q * (p * sc) - F * sc) * rows) by ring.
    replace (Q * rows * (p * sc)) with (Q * (p * sc) * rows) by ring.
    apply Z.mul_le_mono_nonneg_r; lia. }
  assert (A0 : 0 <= r * sc * (p * sc)) by nia.
  assert (G : 2 ^ 51 * (F * sc * rows - r * sc * (p * sc)) <= r * sc * (p * sc)
              /\ 2 ^ 51 * (r * sc * (p * sc) - F * sc * rows) <= r * sc * (p * sc)).
  { generalize dependent (Q * rows * (p * sc)).
    generalize dependent (r * sc * (p * sc)).
    generalize dependent (F * sc * rows). intros. lia. }
  destruct G as [G1 G2]. unfold within.
  split; apply (Z.mul_le_mono_pos_r _ _ sc Hs).
  - replace (2 ^ 51 * (F * rows - r * p * sc) * sc)
      with (2 ^ 51 * (F * sc * rows - r * sc * (p * sc))) by ring.
    replace (r * p * sc * sc) with (r * sc * (p * sc)) by ring. exact G1.
  - replace (2 ^ 51 * (r * p * sc - F * rows) * sc)
      with (2 ^ 51 * (r * sc * (p * sc) - F * sc * rows)) by ring.
    replace (r * p * sc * sc) with (r * sc * (p * sc)) by ring. exact G2.
Qed.

Section RowError.

Variables rows peak : Z.
Hypothesis rows_small : 1 <= rows <= 2 ^ 53.
Hypothesis peak_small : 0 <= peak <= 2 ^ 53.

Lemma fraction_exact_args r :
  0 <= r <= rows -> fraction rows r = round_pos (r * scale) rows.
Proof.
  intros Hr. unfold fraction. rewrite !nearest_exact by lia.
  rewrite (Z.mul_comm (r * scale) scale), (Z.mul_comm rows scale).
  apply round_pos_scale; [apply scale_pos|lia].
Qed.

Lemma scale_large : 2 ^ 1020 * 2 ^ 54 = scale.
Proof. reflexivity. Qed.

Lemma fraction_error r :
  1 <= r <= rows ->
  2 ^ 53 * (fraction rows r * rows - r * scale) <= r * scale
  /\ 2 ^ 53 * (r * scale - fraction rows r * rows) <= r * scale
  /\ 2 ^ 1020 <= fraction rows r.
Proof.
  intros Hr. rewrite fraction_exact_args by lia.
  pose proof scale_large as Es.
  assert (P : 0 < 2 ^ 1020) by reflexivity.
  assert (Hn : 2 ^ 54 * 2 ^ 1020 <= r * scale) by (rewrite <- Es; nia).
  split; [|split].
  - apply round_pos_error; [lia|nia].
  - apply round_pos_error; [lia|nia].
  - apply round_pos_ge; [lia|lia|apply (representable_pow2 1020); lia|nia].
Qed.

Lemma level_zero r : r = 0 \/ peak = 0 -> 0 <= r <= rows -> level rows peak r = 0.
Proof.
  intros H Hr. unfold level. destruct H as [-> | ->].
  - rewrite fraction_exact_args by lia. rewrite Z.mul_0_l.
    rewrite (round_pos_zero rows) by lia. rewrite Z.mul_0_l.
    apply round_pos_zero, scale_pos.
  - rewrite nearest_zero, Z.mul_0_r. apply round_pos_zero, scale_pos.
Qed.

Lemma level_error_pos r :
  1 <= r <= rows -> 1 <= peak ->
  within 51 (level rows peak r * rows) (r * peak * scale)
  /\ 2 ^ 1020 <= level rows peak r.
Proof.
  intros Hr Hp. pose proof scale_pos as Hs.
  destruct (fraction_error r Hr) as (Q1 & Q2 & Q3).
  unfold level. rewrite (nearest_exact peak) by lia.
  set (Q := fraction rows r) in *.
  assert (P : 0 < 2 ^ 1020) by reflexivity.
  assert (Hn : 2 ^ 52 * scale <= Q * (peak * scale)).
  { assert (scale <= peak * scale) by nia.
    apply Z.le_trans with (2 ^ 1020 * scale).
    - apply Z.mul_le_mono_nonneg_r; [lia|]. apply Z.pow_le_mono_r; lia.
    - apply Z.mul_le_mono_nonneg; lia. }
  destruct (round_pos_error (Q * (peak * scale)) scale Hs Hn) as [F1 F2].
  split.
  - apply (within_level _ Q rows r peak scale); try assumption; lia.
  - assert (scale <= peak * scale) by nia.
    apply round_pos_ge; [lia|exact Hs|apply (representable_pow2 1020); lia|].
    apply Z.mul_le_mono_nonneg; lia.
Qed.

(** [rowFloor] is [(r / rows) * peak] up to the two roundings of the
    division and of the product: a relative error of at most [2^-51]. *)
Lemma level_error r :
  0 <= r <= rows -> within 51 (level rows peak r * rows) (r * peak * scale).
Proof.
  intros Hr.
  destruct (Z.eq_dec r 0) as [->|Hr0].
  { rewrite level_zero by lia. rewrite !Z.mul_0_l. apply within_zero. }
  destruct (Z.eq_dec peak 0) as [Hp0|Hp0].
  { rewrite level_zero by lia. rewrite Hp0.
    replace (r * 0 * scale) with 0 by ring. rewrite Z.mul_0_l. apply within_zero. }
  apply level_error_pos; lia.
Qed.





End RowError.

(** ** Strings *)

Lemma strlen_app s t : strlen (s +:+ t) = strlen s + strlen t.
Proof.
  unfold strlen. induction s as [|c s IH]; simpl; [reflexivity|].
  rewrite !Nat2Z.inj_succ. simpl in IH. lia.
Qed.

Lemma strlen_of_list l : strlen (string_of_list_ascii l) = Z.of_nat (length l).
Proof.
  unfold strlen. induction l as [|c l IH]; simpl; [reflexivity|].
  rewrite !Nat2Z.inj_succ. lia.
Qed.

Lemma strlen_fill n c : 0 <= n -> strlen (fill n c) = n.
Proof.
  intros Hn. unfold fill. rewrite strlen_of_list, repeat_length. lia.
Qed.

Lemma strlen_nonneg s : 0 <= strlen s.
Proof. unfold strlen. lia. Qed.

Lemma to_string_from_longer fuel n acc :
  strlen acc + 1 <= strlen (to_string_from fuel n acc).
Proof.
  revert n acc. induction fuel as [|fuel IH]; intros n acc; simpl.
  - unfold strlen. simpl. lia.
  - destruct (n <? 10).
    + unfold strlen. simpl. lia.
    + etransitivity; [|apply IH]. unfold strlen. simpl. lia.
Qed.

Lemma to_string_from_width_mono fuel a b acc1 acc2 :
  0 <= a <= b ->
  strlen (to_string_from fuel a acc1) - strlen acc1
  <= strlen (to_string_from fuel b acc2) - strlen acc2.
Proof.
  revert a b acc1 acc2. induction fuel as [|fuel IH]; intros a b acc1 acc2 H; simpl.
  - unfold strlen. simpl. lia.
  - destruct (Z.ltb_spec a 10) as [Ha|Ha].
    + pose proof (to_string_from_longer fuel (b / 10)
                    (String (int_to_char (48 + b mod 10)) acc2)) as L.
      destruct (b <? 10); unfold strlen in *; simpl in *; lia.
    + destruct (Z.ltb_spec b 10) as [Hb|Hb]; [lia|].
      assert (Hd : 0 <= a / 10 <= b / 10)
        by (split; [apply Z.div_pos; lia|apply Z.div_le_mono; lia]).
      pose proof (IH (a / 10) (b / 10)
                    (String (int_to_char (48 + a mod 10)) acc1)
                    (String (int_to_char (48 + b mod 10)) acc2) Hd) as L.
      unfold strlen in *; simpl in *; lia.
Qed.

(** A smaller number has no more digits. *)
Lemma to_string_width_mono a b :
  0 <= a <= b -> strlen (to_string a) <= strlen (to_string b).
Proof.
  intros H. pose proof (to_string_from_width_mono 19 a b "" "" H) as L.
  unfold to_string. lia.
Qed.


Lemma insert_spaces_fits d s :
  strlen s <= d <= max_size ->
  insert_spaces (wrap (d - strlen s)) s = Ret (fill (d - strlen s) " " +:+ s).
Proof.
  intros H. pose proof (strlen_nonneg s). unfold insert_spaces, wrap.
  unfold max_size in *. rewrite Z.mod_small by lia.
  destruct (Z.leb_spec (d - strlen s + strlen s) (2 ^ 62 - 1)); [reflexivity|lia].
Qed.

(** ** Ticks *)

Section Ticks.

Variables rows peak : Z.
Hypothesis rows_range : 1 <= rows <= size_max.
Hypothesis peak_range : 0 <= peak <= max_size.

Lemma peak_size : 0 <= peak <= size_max.
Proof. unfold max_size, size_max in *. lia. Qed.

Lemma integer_part_peak : 0 <= integer_part (of_Z peak) <= 2 ^ 62.
Proof.
  pose proof peak_size as Hp. pose proof scale_pos as Hs.
  rewrite (of_Z_fin peak Hp). unfold integer_part, units.
  pose proof (representable_nonneg _ (nearest_representable peak ltac:(lia))).
  split; [apply Z.div_pos; lia|].
  apply Z.div_le_upper_bound; [lia|].
  rewrite Z.mul_comm. apply round_pos_le; [nia|lia| |].
  - exists 1, 1136. split; [lia|split; [lia|reflexivity]].
  - unfold max_size in *. nia.
Qed.

(** The tick value: the midpoint is finite and not negative, its integer
    part is a [size_t] not above the integer part of [peak] as a double. *)
Lemma tick_cast r :
  0 <= r < rows ->
  cast_size (fmul half (fadd (rowFloor rows peak r) (rowCeil rows peak r)))
  = Ret (midpoint rows peak r / scale)
  /\ 0 <= midpoint rows peak r / scale <= integer_part (of_Z peak).
Proof.
  intros Hr. pose proof peak_size as Hp. pose proof scale_pos as Hs.
  rewrite (midpoint_value rows peak rows_range Hp r Hr).
  pose proof (midpoint_range rows peak rows_range Hp r Hr) as Hm.
  pose proof integer_part_peak as Hi.
  assert (Hb : 0 <= midpoint rows peak r / scale <= integer_part (of_Z peak)).
  { rewrite (of_Z_fin peak Hp). unfold integer_part, units.
    split; [apply Z.div_pos; lia|apply Z.div_le_mono; lia]. }
  split; [|exact Hb]. unfold cast_size.
  rewrite Z.quot_div_nonneg by lia.
  destruct (Z.leb_spec 0 (midpoint rows peak r / scale)); [|lia].
  destruct (Z.leb_spec (midpoint rows peak r / scale) size_max);
    [reflexivity|unfold size_max in *; lia].
Qed.

Lemma drawTick_value tickStride r :
  1 <= tickStride -> 0 <= r < rows ->
  drawTick rows tickStride r = Ret ((rows - 1 - r) mod tickStride =? 0).
Proof.
  intros Hs Hr. unfold drawTick, wrap, size_max in *.
  destruct (Z.eqb_spec tickStride 0); [lia|].
  rewrite (Z.mod_small (rows - 1 - r)) by lia. reflexivity.
Qed.

End Ticks.

(** ** C4: where the ticks are *)



(** ** C5: the tick label *)

Lemma tick_label_row (d rows tickStride peak r : Z) :
  1 <= rows <= size_max -> 0 <= peak <= max_size -> 0 <= r < rows ->
  drawTick rows tickStride r = Ret true ->
  strlen (to_string (integer_part (of_Z peak))) <= d <= max_size ->
  let mid := fmul half (fadd (rowFloor rows peak r) (rowCeil rows peak r)) in
  let label := to_string (integer_part mid) in
  nonneg_finite mid
  /\ tickStr rows tickStride peak r = Ret label
  /\ tickField d rows tickStride peak r
     = Ret (fill (d - strlen label) " " +:+ label)
  /\ strlen (fill (d - strlen label) " " +:+ label) = d.
Proof.
  intros Hrows Hp Hr Ht Hd mid label.
  pose proof (peak_size peak Hp) as Hps.
  destruct (tick_cast rows peak Hrows Hp r Hr) as [Hc Hb].
  pose proof (midpoint_range rows peak Hrows Hps r Hr) as Hm.
  assert (Emid : mid = Fin (midpoint rows peak r))
    by (apply midpoint_value; assumption).
  assert (Elabel : label = to_string (midpoint rows peak r / scale))
    by (unfold label; rewrite Emid; reflexivity).
  assert (Hw : strlen label <= d).
  { rewrite Elabel. etransitivity; [apply to_string_width_mono, Hb|lia]. }
  assert (Hstr : tickStr rows tickStride peak r = Ret label).
  { unfold tickStr. rewrite Ht. unfold bind. rewrite Hc, Elabel. reflexivity. }
  split; [rewrite Emid; simpl; lia|]. split; [exact Hstr|]. split.
  - unfold tickField. rewrite Hstr. unfold bind. apply insert_spaces_fits. lia.
  - pose proof (strlen_nonneg label). rewrite strlen_app, strlen_fill by lia. lia.
Qed.

(** The tick column of every row is [d] characters wide. *)
Lemma tickField_width (d rows tickStride peak r : Z) :
  1 <= rows <= size_max -> 1 <= tickStride -> 0 <= peak <= max_size ->
  0 <= r < rows ->
  strlen (to_string (integer_part (of_Z peak))) <= d <= max_size ->
  exists s, tickField d rows tickStride peak r = Ret s /\ strlen s = d.
Proof.
  intros Hrows Hs Hp Hr Hd.
  pose proof (drawTick_value rows Hrows tickStride r Hs Hr) as Ht.
  destruct ((rows - 1 - r) mod tickStride =? 0) eqn:E.
  - destruct (tick_label_row d rows tickStride peak r Hrows Hp Hr Ht Hd)
      as (_ & _ & Hf & Hl).
    eexists. split; [exact Hf|exact Hl].
  - pose proof (strlen_nonneg (to_string (integer_part (of_Z peak)))).
    exists (fill d " " +:+ ""). split.
    + unfold tickField, tickStr. rewrite Ht. unfold bind.
      change (strlen "") with 0. rewrite Z.sub_0_r.
      rewrite <- (Z.sub_0_r d) at 1. change 0 with (strlen "") at 1.
      rewrite insert_spaces_fits; [|change (strlen "") with 0; lia].
      change (strlen "") with 0. rewrite Z.sub_0_r. reflexivity.
    + rewrite strlen_app, strlen_fill by lia. change (strlen "") with 0. lia.
Qed.



(** ** Counting *)

(** [isalpha] and [tolower] of the "C" locale against the two alphabets. *)
Lemma classify c :
  (if isalpha (char_to_int c)
   then Some (int_to_char (tolower (char_to_int c))) else None)
  = fold_case c.
Proof.
  destruct c as [[] [] [] [] [] [] [] []]; vm_compute; reflexivity.
Qed.

Lemma fold_case_lower c k : fold_case c = Some k -> fold_case k = Some k.
Proof.
  destruct c as [[] [] [] [] [] [] [] []]; vm_compute; intros E;
    try discriminate; injection E as <-; reflexivity.
Qed.

Lemma fold_case_alphabet c k :
  fold_case c = Some k -> In k (list_ascii_of_string lower_case).
Proof.
  destruct c as [[] [] [] [] [] [] [] []]; vm_compute; intros E;
    try discriminate; injection E as <-; tauto.
Qed.

Lemma letter_alphabets c :
  is_letter c
  <-> In c (list_ascii_of_string upper_case ++ list_ascii_of_string lower_case).
Proof.
  unfold is_letter. split.
  - destruct c as [[] [] [] [] [] [] [] []]; vm_compute; intros E;
      try (exfalso; apply E; reflexivity); tauto.
  - intros H E. simpl in H.
    repeat (destruct H as [<-|H]; [vm_compute in E; discriminate|]). exact H.
Qed.

Lemma count_char_other st c : fold_case c = None -> count_char st c = st.
Proof.
  intros E. pose proof (classify c) as C. rewrite E in C.
  unfold count_char. destruct st as [hist peak].
  destruct (isalpha (char_to_int c)); [discriminate|reflexivity].
Qed.

Lemma count_char_letter hist peak c k :
  fold_case c = Some k ->
  count_char (hist, peak) c
  = (<[k := wrap (bin hist k + 1)]> hist, Z.max (wrap (bin hist k + 1)) peak).
Proof.
  intros E. pose proof (classify c) as C. rewrite E in C.
  unfold count_char.
  destruct (isalpha (char_to_int c)); [|discriminate].
  injection C as ->. reflexivity.
Qed.

Lemma bin_insert hist k v c :
  bin (<[k := v]> hist) c = if decide (k = c) then v else bin hist c.
Proof.
  unfold bin. rewrite lookup_insert. destruct (decide (k = c)); reflexivity.
Qed.

Lemma occurrences_snoc k l c :
  occurrences k (l ++ [c])
  = occurrences k l + (if decide (fold_case c = Some k) then 1 else 0).
Proof.
  induction l as [|a l IH]; simpl; [lia|]. rewrite IH. lia.
Qed.

Lemma occurrences_range k l : 0 <= occurrences k l <= Z.of_nat (length l).
Proof.
  induction l as [|a l IH]; simpl length; simpl occurrences; [lia|].
  destruct (decide (fold_case a = Some k)); lia.
Qed.

Lemma occurrences_none k l :
  (forall c, In c l -> fold_case c = None) -> occurrences k l = 0.
Proof.
  induction l as [|a l IH]; intros H; simpl; [reflexivity|].
  rewrite IH by (intros c Hc; apply H; right; exact Hc).
  rewrite (H a) by (left; reflexivity).
  destruct (decide (None = Some k)); [discriminate|reflexivity].
Qed.

(** The state of the counting loop after the characters [l]. *)
Lemma count_invariant l :
  Z.of_nat (length l) <= max_size ->
  forall hist peak, fold_left count_char l (∅, 0) = (hist, peak) ->
  (forall k, bin hist k = occurrences k l)
  /\ (forall k, bin hist k <= peak)
  /\ (peak = 0 \/ exists k, fold_case k = Some k /\ bin hist k = peak).
Proof.
  induction l as [|c l IH] using rev_ind; intros Hlen hist peak E.
  - injection E as <- <-. split; [|split].
    + intros k. reflexivity.
    + intros k. unfold bin. rewrite lookup_empty. simpl. lia.
    + left. reflexivity.
  - rewrite length_app in Hlen. simpl in Hlen.
    rewrite fold_left_app in E. simpl in E.
    destruct (fold_left count_char l (∅, 0)) as [hist0 peak0] eqn:E0.
    destruct (IH ltac:(lia) hist0 peak0 eq_refl) as (Hocc & Hle & Hmax).
    destruct (fold_case c) as [k0|] eqn:Ec.
    + rewrite (count_char_letter _ _ _ _ Ec) in E.
      pose proof (occurrences_range k0 l) as Hr.
      assert (Hw : wrap (bin hist0 k0 + 1) = bin hist0 k0 + 1).
      { unfold wrap. apply Z.mod_small. rewrite Hocc.
        unfold max_size in Hlen. lia. }
      rewrite Hw in E. injection E as <- <-.
      split; [|split].
      * intros k. rewrite bin_insert, occurrences_snoc, Ec.
        destruct (decide (k0 = k)) as [->|Hne].
        -- rewrite Hocc. destruct (decide (Some k = Some k)); [lia|congruence].
        -- rewrite Hocc. destruct (decide (Some k0 = Some k)); [congruence|lia].
      * intros k. rewrite bin_insert.
        destruct (decide (k0 = k)); [lia|]. specialize (Hle k). lia.
      * right. destruct (Z.max_spec (bin hist0 k0 + 1) peak0) as [[Hlt Hm]|[Hge Hm]].
        -- destruct Hmax as [->|(k1 & Hk1 & Hb1)];
             [pose proof (Hle k0); rewrite Hocc in *; lia|].
           exists k1. split; [exact Hk1|]. rewrite bin_insert, Hm.
           destruct (decide (k0 = k1)) as [->|]; [lia|exact Hb1].
        -- exists k0. split; [exact (fold_case_lower _ _ Ec)|].
           rewrite bin_insert, Hm. destruct (decide (k0 = k0)); [reflexivity|congruence].
    + rewrite (count_char_other _ _ Ec) in E. injection E as <- <-.
      split; [|split; assumption].
      intros k. rewrite occurrences_snoc, Ec, Hocc.
      destruct (decide (None = Some k)); [discriminate|lia].
Qed.

Lemma foldr_max_bound (l : list Z) m :
  0 <= m -> Forall (fun x => x <= m) l -> foldr Z.max 0 l <= m.
Proof.
  intros Hm H. induction H as [|x l Hx _ IH]; simpl; lia.
Qed.

Lemma foldr_max_member (l : list Z) x : In x l -> x <= foldr Z.max 0 l.
Proof.
  induction l as [|a l IH]; simpl; [tauto|].
  intros [->|H]; [lia|]. specialize (IH H). lia.
Qed.

Lemma foldr_max_nonneg (l : list Z) : 0 <= foldr Z.max 0 l.
Proof. induction l as [|a l IH]; simpl; lia. Qed.

Lemma count_letters_state input :
  strlen input <= max_size ->
  forall hist peak, count_letters input = (hist, peak) ->
  (forall k, bin hist k = occurrences k (list_ascii_of_string input))
  /\ (forall k, 0 <= bin hist k <= peak)
  /\ peak = max_bin hist.
Proof.
  intros Hlen hist peak E. unfold count_letters in E.
  assert (Hl : Z.of_nat (length (list_ascii_of_string input)) <= max_size).
  { rewrite <- (string_of_list_ascii_of_string input) in Hlen.
    rewrite strlen_of_list in Hlen. exact Hlen. }
  destruct (count_invariant _ Hl hist peak E) as (Hocc & Hle & Hmax).
  split; [exact Hocc|].
  assert (Hb : forall k, 0 <= bin hist k <= peak).
  { intros k. split; [|apply Hle]. rewrite Hocc. apply occurrences_range. }
  split; [exact Hb|].
  unfold max_bin. apply Z.le_antisymm.
  - destruct Hmax as [->|(k & Hk & <-)]; [apply foldr_max_nonneg|].
    apply foldr_max_member, in_map, (fold_case_alphabet k), Hk.
  - apply foldr_max_bound; [specialize (Hb "a"%char); lia|].
    apply Forall_forall. intros x Hx.
    apply list_elem_of_fmap in Hx. destruct Hx as (k & -> & _). apply Hle.
Qed.

(** ** C2: which characters are counted *)

(** C2.  A character changes the histogram exactly when it is one of the 52
    ASCII letters.  A letter adds one to the bin of its lowercase form, so
    that the two cases of a letter share a bin; any other character leaves
    the bins and [peak] as they are.  After the loop the bin of [k] holds
    the number of characters of the text that are the letter [k] in either
    case. *)
Theorem letters_counted (input : string) :
  strlen input <= max_size ->
  (forall c, is_letter c
     <-> In c (list_ascii_of_string upper_case ++ list_ascii_of_string lower_case))
  /\ (forall st c, ~ is_letter c -> count_char st c = st)
  /\ (forall hist peak c k,
        fold_case c = Some k -> 0 <= bin hist k < size_max ->
        count_char (hist, peak) c
        = (<[k := bin hist k + 1]> hist, Z.max (bin hist k + 1) peak))
  /\ (forall (i : nat) u l,
        list_ascii_of_string upper_case !! i = Some u ->
        list_ascii_of_string lower_case !! i = Some l ->
        fold_case u = Some l /\ fold_case l = Some l)
  /\ (forall st, count_char st "A" = count_char st "a")
  /\ (forall k, bin (count_letters input).1 k
                = occurrences k (list_ascii_of_string input)).
Proof.
  intros Hlen. split; [exact letter_alphabets|]. split; [|split; [|split; [|split]]].
  - intros st c Hc. apply count_char_other.
    unfold is_letter in Hc. destruct (fold_case c); [exfalso; apply Hc; discriminate|reflexivity].
  - intros hist peak c k Ec Hb. rewrite (count_char_letter _ _ _ _ Ec).
    unfold wrap, size_max in *. rewrite Z.mod_small by lia. reflexivity.
  - intros i u l Hu Hl.
    do 26 (destruct i as [|i];
           [injection Hu as <-; injection Hl as <-; split; reflexivity|]).
    discriminate.
  - intros [hist peak].
    rewrite (count_char_letter hist peak "A" "a" eq_refl).
    rewrite (count_char_letter hist peak "a" "a" eq_refl). reflexivity.
  - intros k. destruct (count_letters input) as [hist peak] eqn:E.
    apply (count_letters_state input Hlen hist peak E).
Qed.

Lemma letters_counted_witness :
  bin (count_letters "Hello, World").1 "l" = 3.
Proof.
  destruct (letters_counted "Hello, World") as (_ & _ & _ & _ & _ & H);
    [vm_compute; discriminate|].
  rewrite H. reflexivity.
Defined.

(** ** C3: the peak *)

(** C3.  After the loop [peak] is the largest of the 26 bins and no bin is
    negative.  A text without a letter, the empty text among them, leaves
    every bin at zero and [peak] at zero. *)
Theorem peak_is_max (input : string) (hist : gmap ascii Z) (peak : Z) :
  strlen input <= max_size ->
  count_letters input = (hist, peak) ->
  peak = max_bin hist
  /\ (forall k, 0 <= bin hist k)
  /\ ((forall c, In c (list_ascii_of_string input) -> ~ is_letter c) ->
      (forall k, bin hist k = 0) /\ peak = 0).
Proof.
  intros Hlen E.
  destruct (count_letters_state input Hlen hist peak E) as (Hocc & Hb & Hmax).
  split; [exact Hmax|]. split; [intros k; apply Hb|].
  intros Hno.
  assert (Hz : forall k, bin hist k = 0).
  { intros k. rewrite Hocc. apply occurrences_none.
    intros c Hc. specialize (Hno c Hc). unfold is_letter in Hno.
    destruct (fold_case c); [exfalso; apply Hno; discriminate|reflexivity]. }
  split; [exact Hz|].
  rewrite Hmax. unfold max_bin. apply Z.le_antisymm; [|apply foldr_max_nonneg].
  apply foldr_max_bound; [lia|].
  apply Forall_forall. intros x Hx.
  apply list_elem_of_fmap in Hx. destruct Hx as (k & -> & _). rewrite Hz. lia.
Qed.

Lemma peak_is_max_witness :
  (count_letters "aabbbccccc").2 = max_bin (count_letters "aabbbccccc").1.
Proof.
  destruct (count_letters "aabbbccccc") as [hist peak] eqn:E.
  destruct (peak_is_max "aabbbccccc" hist peak) as (H & _);
    [vm_compute; discriminate|exact E|exact H].
Defined.

(** ** C8: a bar has no gap *)

Lemma flt_level (rows peak r : Z) (y : double) :
  1 <= rows <= size_max -> 0 <= peak <= size_max ->
  forall r', 0 <= r' <= r -> r < rows ->
  flt (rowFloor rows peak r) y = true -> flt (rowFloor rows peak r') y = true.
Proof.
  intros Hrows Hp r' Hr' Hr.
  rewrite !rowFloor_level by (assumption || lia).
  pose proof (level_mono rows peak Hrows Hp r' r Hr' ltac:(lia)) as Hm.
  destruct y as [b| | |]; simpl; try (intros; assumption).
  intros H. apply Z.ltb_lt in H. apply Z.ltb_lt. lia.
Qed.

(** C8.  For a bin count [k], if [k > rowFloor] holds on row [r], it holds on
    every row [r'] below it: the rows on which a letter's marker is drawn
    are the rows from the bottom one up to some row. *)
Theorem bar_contiguous (hist : gmap ascii Z) (rows peak k r r' c : Z) :
  1 <= rows <= size_max -> 0 <= peak <= size_max ->
  0 <= r' < r -> r < rows ->
  (flt (rowFloor rows peak r) (of_Z k) = true ->
   flt (rowFloor rows peak r') (of_Z k) = true)
  /\ (marker hist (rowFloor rows peak r) c = "*"%char ->
      marker hist (rowFloor rows peak r') c = "*"%char).
Proof.
  intros Hrows Hp Hr' Hr. split.
  - apply (flt_level rows peak r _ Hrows Hp r'); lia.
  - unfold marker.
    destruct (flt (rowFloor rows peak r) _) eqn:E; [|discriminate].
    rewrite (flt_level rows peak r _ Hrows Hp r' ltac:(lia) Hr E). reflexivity.
Qed.

Lemma bar_contiguous_witness :
  flt (rowFloor 4 5 2) (of_Z 3) = true /\ flt (rowFloor 4 5 0) (of_Z 3) = true.
Proof.
  assert (H2 : flt (rowFloor 4 5 2) (of_Z 3) = true) by (vm_compute; reflexivity).
  destruct (bar_contiguous ∅ 4 5 3 2 0 97) as [H _];
    [unfold size_max; lia|unfold size_max; lia|lia|lia|].
  split; [exact H2|exact (H H2)].
Defined.

(** ** C7: a histogram without a letter *)

Lemma of_Z_zero : of_Z 0 = Fin 0.
Proof. rewrite of_Z_fin by (unfold size_max; lia). rewrite nearest_exact by lia. reflexivity. Qed.

Lemma rowFloor_zero_peak (rows r : Z) :
  1 <= rows <= size_max -> 0 <= r < rows -> rowFloor rows 0 r = Fin 0.
Proof.
  intros Hrows Hr.
  assert (Hp : 0 <= 0 <= size_max) by (unfold size_max; lia).
  rewrite (rowFloor_level rows 0 Hrows Hp r) by lia.
  pose proof (level_range rows 0 Hrows Hp r ltac:(lia)) as H.
  rewrite (nearest_exact 0) in H by lia. f_equal. lia.
Qed.

Lemma markers_blank (hist : gmap ascii Z) (f : double) :
  (forall c, marker hist f c = " "%char) ->
  markers hist f = fill (Z.of_nat (length alphabet)) " ".
Proof.
  intros H. unfold markers, fill. rewrite Nat2Z.id. f_equal.
  induction alphabet as [|c l IH]; [reflexivity|].
  simpl. rewrite H. f_equal. exact IH.
Qed.

(** C7, on the code.  For a text that leaves [peak] at zero, the formulas of
    the row loop would give [rowFloor = 0] and 26 blanks on every row, with
    no special case.  But the program does not reach the row loop: [digits]
    has no special case for [peak = 0] either, it is the conversion of minus
    infinity to [size_t], and the core stops there with nothing written. *)
Theorem zero_peak_nothing_drawn (libm : Z -> double) (input : string)
    (hist : gmap ascii Z) (rows tickStride : Z) :
  strlen input <= max_size ->
  count_letters input = (hist, 0) ->
  1 <= rows <= size_max ->
  (forall r, 0 <= r < rows ->
     rowFloor rows 0 r = Fin 0
     /\ markers hist (rowFloor rows 0 r) = fill 26 " ")
  /\ digits libm 0 = Fault UB_float_cast
  /\ core libm input rows tickStride = (""%string, Fault UB_float_cast).
Proof.
  intros Hlen E Hrows.
  destruct (count_letters_state input Hlen hist 0 E) as (_ & Hb & _).
  assert (Hd : digits libm 0 = Fault UB_float_cast)
    by (unfold digits; rewrite of_Z_zero; reflexivity).
  split; [|split; [exact Hd|]].
  - intros r Hr.
    pose proof (rowFloor_zero_peak rows r Hrows Hr) as Hf.
    split; [exact Hf|]. rewrite Hf. apply (markers_blank hist (Fin 0)).
    intros c. unfold marker.
    replace (bin hist (int_to_char c)) with 0 by (specialize (Hb (int_to_char c)); lia).
    rewrite of_Z_zero. reflexivity.
  - unfold core. rewrite E, Hd. reflexivity.
Qed.

Lemma zero_peak_nothing_drawn_witness :
  core (fun _ => Fin 0) "123 456" 10 3 = (""%string, Fault UB_float_cast).
Proof.
  destruct (zero_peak_nothing_drawn (fun _ => Fin 0) "123 456"
              (count_letters "123 456").1 10 3) as (_ & _ & H);
    [vm_compute; discriminate|reflexivity|unfold size_max; lia|exact H].
Defined.

(** ** C6: the rows and their markers *)

Lemma write_each_lines (step : Z -> res string) (line : Z -> string) rs :
  (forall r, r ∈ rs -> step r = Ret (line r)) ->
  write_each step rs = (foldr String.append ""%string (line <$> rs), Ret tt).
Proof.
  induction rs as [|r rs IH]; intros H; simpl; [reflexivity|].
  rewrite (H r) by apply list_elem_of_here.
  rewrite IH by (intros r' Hr'; apply H, list_elem_of_further, Hr').
  reflexivity.
Qed.

(** The row loop runs from [rows - 1] down to 0. *)
Lemma row_indices_order rows :
  0 <= rows -> row_indices rows = (fun i => rows - 1 - i) <$> seqZ 0 rows.
Proof.
  intros Hrows. unfold row_indices. apply list_eq. intros i.
  rewrite list_lookup_fmap.
  destruct (Z_lt_le_dec (Z.of_nat i) rows) as [Hlt|Hge].
  - rewrite reverse_lookup by (rewrite length_seqZ; lia).
    rewrite length_seqZ, !lookup_seqZ_lt by lia. simpl. f_equal. lia.
  - rewrite lookup_seqZ_ge by lia. simpl.
    apply lookup_ge_None. rewrite length_reverse, length_seqZ. lia.
Qed.

Lemma row_indices_range rows r : r ∈ row_indices rows -> 0 <= r < rows.
Proof.
  unfold row_indices. rewrite elem_of_reverse, elem_of_seqZ. lia.
Qed.

Lemma get_of_list (l : list ascii) (i : nat) :
  String.get i (string_of_list_ascii l) = l !! i.
Proof.
  revert i. induction l as [|a l IH]; intros [|i]; simpl; try reflexivity. apply IH.
Qed.

Lemma alphabet_letters (i : nat) c :
  String.get i lower_case = Some c ->
  exists k, alphabet !! i = Some k /\ int_to_char k = c.
Proof.
  intros H.
  do 26 (destruct i as [|i];
         [injection H as <-; eexists; split; reflexivity|]).
  discriminate.
Qed.

Lemma markers_get (hist : gmap ascii Z) (f : double) (i : nat) c :
  String.get i lower_case = Some c ->
  String.get i (markers hist f)
  = Some (if flt f (of_Z (bin hist c)) then "*"%char else " "%char).
Proof.
  intros H. destruct (alphabet_letters i c H) as (k & Hk & <-).
  unfold markers. rewrite get_of_list, list_lookup_fmap, Hk. reflexivity.
Qed.

(** C6.  The rows are written for [r = rows - 1] down to [r = 0].  Each is
    the tick column, [d] characters wide, a bar, then one marker per letter
    from a to z and a newline.  The marker of a letter is a star exactly
    when its count, converted to a double, is above [rowFloor]; for a count
    of at most [2^53] the conversion is exact, so the comparison is that of
    the count with the value of [rowFloor].  [rowFloor] is the quotient
    [r / rows] of real numbers times [peak], not that of integers: its
    value times [rows] is [r * peak] up to the roundings of the division
    and of the product in binary64, a relative error of at most [2^-51]
    (for [rows] and [peak] that are doubles, up to [2^53]). *)
Theorem rows_drawn (d : Z) (hist : gmap ascii Z) (rows tickStride peak : Z) :
  1 <= rows <= size_max -> 1 <= tickStride -> 0 <= peak <= max_size ->
  strlen (to_string (integer_part (of_Z peak))) <= d <= max_size ->
  row_indices rows = (fun i => rows - 1 - i) <$> seqZ 0 rows
  /\ (exists field : Z -> string,
        (forall r, 0 <= r < rows -> strlen (field r) = d)
        /\ draw_rows d hist rows tickStride peak
           = (foldr String.append ""%string
                ((fun r => field r +:+ "|"
                           +:+ markers hist (rowFloor rows peak r) +:+ nl)
                 <$> row_indices rows),
              Ret tt))
  /\ (forall (f : double) (i : nat) c,
        String.get i lower_case = Some c ->
        String.get i (markers hist f)
        = Some (if flt f (of_Z (bin hist c)) then "*"%char else " "%char))
  /\ (forall r k, 0 <= r < rows -> 0 <= k <= 2 ^ 53 ->
        nonneg_finite (rowFloor rows peak r)
        /\ (flt (rowFloor rows peak r) (of_Z k) = true
            <-> units (rowFloor rows peak r) < k * scale))
  /\ (forall r, 0 <= r < rows -> rows <= 2 ^ 53 -> peak <= 2 ^ 53 ->
        within 51 (units (rowFloor rows peak r) * rows) (r * peak * scale)).
Proof.
  intros Hrows Hs Hp Hd.
  split; [apply row_indices_order; lia|]. split; [|split; [|split]].
  - exists (fun r => match tickField d rows tickStride peak r with
                     | Ret s => s
                     | Fault _ => ""%string
                     end).
    split.
    + intros r Hr.
      destruct (tickField_width d rows tickStride peak r Hrows Hs Hp Hr Hd)
        as (s & -> & Hw). exact Hw.
    + unfold draw_rows. apply write_each_lines.
      intros r Hr. apply row_indices_range in Hr.
      destruct (tickField_width d rows tickStride peak r Hrows Hs Hp Hr Hd)
        as (s & Ht & _).
      unfold draw_row. rewrite Ht. reflexivity.
  - intros f i c. apply markers_get.
  - intros r k Hr Hk.
    pose proof (peak_size peak Hp) as Hps.
    rewrite (rowFloor_level rows peak Hrows Hps r) by lia.
    pose proof (level_range rows peak Hrows Hps r ltac:(lia)).
    rewrite of_Z_fin by (unfold size_max; lia).
    rewrite nearest_exact by lia. simpl. split; [lia|apply Z.ltb_lt].
  - intros r Hr Hrs Hps.
    pose proof (peak_size peak Hp) as Hps'.
    rewrite (rowFloor_level rows peak Hrows Hps' r) by lia.
    unfold units. apply level_error; lia.
Qed.

Lemma rows_drawn_witness :
  row_indices 4 = [3; 2; 1; 0]
  /\ String.get 2 (markers (count_letters "aabbbccccc").1 (rowFloor 4 5 3))
     = Some "*"%char
  /\ within 51 (units (rowFloor 4 5 3) * 4) (3 * 5 * scale).
Proof.
  destruct (rows_drawn 1 (count_letters "aabbbccccc").1 4 2 5)
    as (H1 & _ & H3 & _ & H5);
    [unfold size_max; lia|lia|unfold max_size; lia
    |vm_compute; split; discriminate|].
  split; [rewrite H1; reflexivity|]. split.
  - rewrite (H3 _ 2%nat "c"%char eq_refl). vm_compute. reflexivity.
  - apply H5; lia.
Defined.

(** ** C1: the width of the tick column *)

(** C1, at [peak = 0].  The text without a letter leaves [peak] at zero, and
    [digits] is then the conversion to [size_t] of [floor(log10(0))], which
    is minus infinity: the conversion has no defined result, and [digits] is
    not 1. *)
Theorem digits_zero_peak (libm : Z -> double) :
  (count_letters "").2 = 0
  /\ log10 libm (of_Z 0) = NInf
  /\ digits libm 0 = Fault UB_float_cast.
Proof.
  split; [reflexivity|]. unfold digits. rewrite of_Z_zero. split; reflexivity.
Qed.

(** ** C9 and C10: the arguments *)

Lemma isdigit_decimal c : isdigit (char_to_int c) = true <-> decimal_digit c.
Proof.
  unfold decimal_digit. split.
  - destruct c as [[] [] [] [] [] [] [] []]; vm_compute; intros E;
      try discriminate; tauto.
  - intros H. simpl in H.
    repeat (destruct H as [<-|H]; [reflexivity|]). destruct H.
Qed.

Lemma has_non_digit_found v c :
  In c (list_ascii_of_string v) -> ~ decimal_digit c -> has_non_digit v = true.
Proof.
  intros Hin Hc. unfold has_non_digit. apply existsb_exists.
  exists c. split; [exact Hin|].
  destruct (isdigit (char_to_int c)) eqn:E; [|reflexivity].
  exfalso. apply Hc, isdigit_decimal, E.
Qed.


(** [parseParam] refuses a value that is empty, has a character that is not
    a digit, or is too large. *)
Lemma parseParam_refuses args param setting v rest :
  after_flag param args = Some (v :: rest) -> refused_value v ->
  exists setting',
    parseParam args param setting = (invalid_argument_for param, false, setting').
Proof.
  intros Ha Hv. unfold parseParam. rewrite Ha. unfold from_chars.
  destruct (leading_digits v) as [|d0 ds] eqn:El; [eexists; reflexivity|].
  destruct Hv as [->|[(c & Hin & Hc)|Hbig]].
  - discriminate.
  - rewrite (has_non_digit_found v c Hin Hc).
    destruct (decimal_value (d0 :: ds) <=? size_max); eexists; reflexivity.
  - rewrite El in Hbig.
    destruct (Z.leb_spec (decimal_value (d0 :: ds)) size_max); [lia|].
    eexists; reflexivity.
Qed.

Lemma no_help argv :
  ~ has_help argv -> existsb (fun s => String.eqb s "--help") argv = false.
Proof.
  intros H. destruct (existsb _ argv) eqn:E; [|reflexivity].
  exfalso. apply H. apply existsb_exists in E. destruct E as (s & Hin & Hs).
  apply String.eqb_eq in Hs. subst s. exact Hin.
Qed.

(** What [parseParam] returns is one of three things. *)
Lemma parseParam_cases args param setting :
  (exists setting', parseParam args param setting = (""%string, true, setting'))
  \/ (exists setting',
        parseParam args param setting = (invalid_argument_for param, false, setting'))
  \/ parseParam args param setting = (missing_argument_for param, false, setting).
Proof.
  unfold parseParam. destruct (after_flag param args) as [[|s rest]|].
  - right. right. reflexivity.
  - destruct (from_chars s setting) as [[] setting'].
    + destruct (has_non_digit s); [right; left|left]; eexists; reflexivity.
    + right. left. eexists. reflexivity.
    + right. left. eexists. reflexivity.
  - left. eexists. reflexivity.
Qed.




(** C10.  With no argument after the program's name, the program prints the
    hint, opens no file and returns 0. *)
Theorem no_argument (libm : Z -> double) (fs : string -> option string)
    (prog : string) :
  main libm fs [prog] = Run hint [] (Ret 0).
Proof. reflexivity. Qed.

(** * Further properties of the program *)

(** ** [--help], the file, and the flags *)

Lemma main_after_checks (libm : Z -> double) (fs : string -> option string)
    (prog filename : string) (args : list string) :
  ~ has_help (prog :: filename :: args) ->
  main libm fs (prog :: filename :: args)
  = match fs filename with
    | None => Run (file_not_found filename) [filename] (Ret 1)
    | Some input =>
        let '(out_r, ok_r, rows) := parseParam (prog :: filename :: args) "-r" 10 in
        if negb ok_r then Run out_r [filename] (Ret 1)
        else
          let '(out_s, ok_s, tickStride) :=
            parseParam (prog :: filename :: args) "-s" 3 in
          if negb ok_s then Run (out_r +:+ out_s) [filename] (Ret 1)
          else
            let '(out, st) := core libm input rows tickStride in
            Run (out_r +:+ out_s +:+ out) [filename]
                (match st with Ret _ => Ret 0 | Fault f => Fault f end)
    end.
Proof.
  intros Hhelp. unfold main. rewrite (no_help _ Hhelp).
  replace (Z.of_nat (length (prog :: filename :: args)) =? 1) with false
    by (symmetry; apply Z.eqb_neq; simpl length; lia).
  reflexivity.
Qed.

(** With [--help] anywhere after the program's name, the program prints the
    usage text and returns 0: it opens no file, whether or not one is named,
    and looks at no flag. *)
Theorem help_anywhere (libm : Z -> double) (fs : string -> option string)
    (prog : string) (args : list string) :
  has_help args ->
  main libm fs (prog :: args) = Run usage [] (Ret 0).
Proof.
  intros H. unfold main.
  destruct args as [|a args]; [destruct H|].
  replace (Z.of_nat (length (prog :: a :: args)) =? 1) with false
    by (symmetry; apply Z.eqb_neq; simpl length; lia).
  replace (existsb (fun s => String.eqb s "--help") (prog :: a :: args)) with true;
    [reflexivity|].
  symmetry. apply existsb_exists. exists "--help"%string.
  split; [right; exact H|reflexivity].
Qed.

Lemma help_anywhere_witness :
  main (fun _ => NaN) (fun _ => None)
       ["histogrammer"; "missing.txt"; "-r"; "--help"]%string
  = Run usage [] (Ret 0).
Proof.
  apply help_anywhere. unfold has_help. simpl. tauto.
Defined.

(** When the file named by the first argument cannot be opened, the program
    says so and returns 1, whatever the flags are: the file is opened before
    any flag is looked at. *)
Theorem file_not_found_exit (libm : Z -> double) (fs : string -> option string)
    (prog filename : string) (args : list string) :
  ~ has_help (prog :: filename :: args) ->
  fs filename = None ->
  main libm fs (prog :: filename :: args)
  = Run (file_not_found filename) [filename] (Ret 1).
Proof.
  intros Hhelp Hf. rewrite main_after_checks by assumption. rewrite Hf. reflexivity.
Qed.

Lemma file_not_found_exit_witness :
  main (fun _ => NaN) (fun _ => None) ["histogrammer"; "missing.txt"; "-r"; "x"]%string
  = Run (file_not_found "missing.txt") ["missing.txt"%string] (Ret 1).
Proof.
  apply file_not_found_exit; [|reflexivity].
  unfold has_help. simpl. intros [H|[H|[H|[H|H]]]]; try discriminate. exact H.
Defined.

Lemma after_flag_last_distinct p q args :
  p <> q -> after_flag p args = Some [] -> after_flag q args = Some [] -> False.
Proof.
  intros Hpq. induction args as [|a args IH]; simpl; [discriminate|].
  destruct (String.eqb_spec a p) as [Ep|Hp]; destruct (String.eqb_spec a q) as [Eq|Hq].
  - congruence.
  - intros E1 E2. injection E1 as ->. discriminate.
  - intros E1 E2. injection E2 as ->. discriminate.
  - exact IH.
Qed.

(** When the file opens and the first [-r] is the last argument, the program
    reports the missing value of [-r] and returns 1.  When the first [-s] is
    the last argument it returns 1 as well, after the report of the missing
    value of [-s], or that of a refused value of [-r]. *)
Theorem missing_flag_value (libm : Z -> double) (fs : string -> option string)
    (prog filename input : string) (args : list string) :
  ~ has_help (prog :: filename :: args) ->
  fs filename = Some input ->
  (after_flag "-r" (prog :: filename :: args) = Some [] ->
   main libm fs (prog :: filename :: args)
   = Run (missing_argument_for "-r") [filename] (Ret 1))
  /\ (after_flag "-s" (prog :: filename :: args) = Some [] ->
      main libm fs (prog :: filename :: args)
      = Run (missing_argument_for "-s") [filename] (Ret 1)
      \/ main libm fs (prog :: filename :: args)
         = Run (invalid_argument_for "-r") [filename] (Ret 1)).
Proof.
  intros Hhelp Hf. rewrite main_after_checks by assumption. rewrite Hf.
  set (argv := prog :: filename :: args). split; intros Ha.
  - unfold parseParam at 1. rewrite Ha. reflexivity.
  - destruct (parseParam_cases argv "-r" 10) as [(rows & Er)|[(rows & Er)|Er]].
    + left. rewrite Er. simpl. unfold parseParam. rewrite Ha. reflexivity.
    + right. rewrite Er. reflexivity.
    + exfalso. unfold parseParam in Er.
      destruct (after_flag "-r" argv) as [[|s rest]|] eqn:E.
      * apply (after_flag_last_distinct "-r" "-s" argv); [discriminate|exact E|exact Ha].
      * destruct (from_chars s 10) as [[] z]; [destruct (has_non_digit s)| |];
          vm_compute in Er; discriminate.
      * vm_compute in Er; discriminate.
Qed.

Lemma missing_flag_value_witness :
  main (fun _ => NaN) (fun _ => Some "abc"%string) ["histogrammer"; "text"; "-r"]%string
  = Run (missing_argument_for "-r") ["text"%string] (Ret 1).
Proof.
  destruct (missing_flag_value (fun _ => NaN) (fun _ => Some "abc"%string)
              "histogrammer" "text" "abc" ["-r"%string]) as [H _].
  - unfold has_help. simpl. intros [H|[H|[H|H]]]; try discriminate. exact H.
  - reflexivity.
  - apply H. reflexivity.
Defined.

(** ** Decimal texts *)

Lemma decimal_value_from (ds : list Z) (a : Z) :
  fold_left (fun acc d => 10 * acc + d) ds a
  = a * 10 ^ Z.of_nat (length ds) + decimal_value ds.
Proof.
  unfold decimal_value. revert a.
  induction ds as [|d ds IH]; intros a; simpl fold_left; simpl length.
  - simpl. lia.
  - rewrite (IH (10 * a + d)), (IH (10 * 0 + d)).
    rewrite Nat2Z.inj_succ, Z.pow_succ_r by lia. lia.
Qed.

Lemma digit_char n :
  0 <= n < 10 ->
  isdigit (char_to_int (int_to_char (48 + n))) = true
  /\ char_to_int (int_to_char (48 + n)) - 48 = n.
Proof.
  intros H. rewrite <- (Z2Nat.id n) by lia.
  assert (Hk : (Z.to_nat n < 10)%nat) by lia.
  revert Hk. generalize (Z.to_nat n). clear. intros k Hk.
  do 10 (destruct k as [|k]; [split; reflexivity|]).
  lia.
Qed.

Lemma leading_digits_all s :
  all_digits s ->
  Z.of_nat (length (leading_digits s)) = strlen s /\ has_non_digit s = false.
Proof.
  unfold all_digits, has_non_digit, strlen.
  induction s as [|c s IH]; intros H; simpl; [split; reflexivity|].
  rewrite (H c) by (left; reflexivity).
  destruct IH as [IH1 IH2]; [intros c' Hc'; apply H; right; exact Hc'|].
  simpl. rewrite IH2. split; [lia|reflexivity].
Qed.

Lemma to_string_from_value fuel n acc :
  0 <= n < 10 ^ (Z.of_nat fuel + 1) -> all_digits acc ->
  all_digits (to_string_from fuel n acc)
  /\ decimal_value (leading_digits (to_string_from fuel n acc))
     = n * 10 ^ strlen acc + decimal_value (leading_digits acc).
Proof.
  revert n acc.
  assert (Step : forall n acc, 0 <= n < 10 -> all_digits acc ->
            all_digits (String (int_to_char (48 + n)) acc)
            /\ decimal_value (leading_digits (String (int_to_char (48 + n)) acc))
               = n * 10 ^ strlen acc + decimal_value (leading_digits acc)).
  { intros n acc Hn Hacc. destruct (digit_char n Hn) as [D1 D2]. split.
    - intros c [<-|Hc]; [exact D1|apply Hacc, Hc].
    - simpl leading_digits. rewrite D1, D2.
      unfold decimal_value at 1. simpl fold_left.
      rewrite decimal_value_from.
      destruct (leading_digits_all acc Hacc) as [-> _]. lia. }
  induction fuel as [|fuel IH]; intros n acc Hn Hacc.
  - simpl to_string_from. rewrite Z.mod_small by (simpl in Hn; lia).
    apply Step; [simpl in Hn; lia|exact Hacc].
  - simpl to_string_from. destruct (Z.ltb_spec n 10) as [Hlt|Hge].
    + rewrite Z.mod_small by lia. apply Step; [lia|exact Hacc].
    + pose proof (Z.mod_pos_bound n 10 ltac:(lia)) as Hm.
      destruct (Step (n mod 10) acc Hm Hacc) as [A1 A2].
      assert (Hq : 0 <= n / 10 < 10 ^ (Z.of_nat fuel + 1)).
      { split; [apply Z.div_pos; lia|].
        apply Z.div_lt_upper_bound; [lia|].
        rewrite <- Z.pow_succ_r by lia.
        replace (Z.succ (Z.of_nat fuel + 1)) with (Z.of_nat (S fuel) + 1) by lia.
        lia. }
      destruct (IH (n / 10) _ Hq A1) as [B1 B2].
      split; [exact B1|]. rewrite B2, A2.
      replace (strlen (String (int_to_char (48 + n mod 10)) acc))
        with (Z.succ (strlen acc)) by (unfold strlen; simpl; lia).
      rewrite Z.pow_succ_r by apply strlen_nonneg.
      pose proof (Z.div_mod n 10 ltac:(lia)). lia.
Qed.

(** [std::to_string] and [std::from_chars] are inverse to each other: the
    text of a [size_t] has decimal digits only, twenty at most, and is read
    back as the same number. *)
Theorem to_string_from_chars (n setting : Z) :
  0 <= n <= size_max ->
  from_chars (to_string n) setting = (errc_ok, n)
  /\ has_non_digit (to_string n) = false
  /\ 1 <= strlen (to_string n) <= 20.
Proof.
  intros Hn. unfold size_max in Hn.
  assert (Hall : all_digits ""%string) by (intros c []).
  destruct (to_string_from_value 19 n "" ltac:(simpl; lia) Hall) as [A V].
  fold (to_string n) in A, V.
  change (strlen "") with 0 in V. simpl (leading_digits "") in V.
  change (decimal_value []) with 0 in V. rewrite Z.pow_0_r in V.
  destruct (leading_digits_all _ A) as [L ND].
  assert (W : 1 <= strlen (to_string n) <= 20).
  { split.
    - pose proof (to_string_from_longer 19 n ""). unfold to_string.
      change (strlen "") with 0 in *. lia.
    - pose proof (to_string_width_mono n (2 ^ 64 - 1) ltac:(lia)) as M.
      change (strlen (to_string (2 ^ 64 - 1))) with 20 in M. exact M. }
  split; [|split; [exact ND|exact W]].
  unfold from_chars.
  destruct (leading_digits (to_string n)) as [|d ds] eqn:E.
  - simpl in L. lia.
  - rewrite V. unfold size_max.
    destruct (Z.leb_spec (n * 1 + 0) (2 ^ 64 - 1)); [f_equal; lia|lia].
Qed.

Lemma to_string_from_chars_witness :
  from_chars (to_string 1234) 10 = (errc_ok, 1234).
Proof.
  apply (to_string_from_chars 1234 10). unfold size_max. lia.
Defined.

(** ** Accepted flag values *)

Lemma all_digits_decimal s :
  all_digits s <-> (forall c, In c (list_ascii_of_string s) -> decimal_digit c).
Proof.
  unfold all_digits. split; intros H c Hc; apply isdigit_decimal, H, Hc.
Qed.

Lemma has_non_digit_false s : has_non_digit s = false -> all_digits s.
Proof.
  unfold has_non_digit, all_digits. intros H c Hc.
  destruct (isdigit (char_to_int c)) eqn:E; [reflexivity|].
  assert (X : existsb (fun c => negb (isdigit (char_to_int c)))
                (list_ascii_of_string s) = true).
  { apply existsb_exists. exists c. split; [exact Hc|]. rewrite E. reflexivity. }
  rewrite X in H. discriminate.
Qed.

Lemma leading_digits_nonempty s :
  s <> ""%string -> all_digits s -> leading_digits s <> [].
Proof.
  destruct s as [|c s]; [congruence|]. intros _ H. simpl.
  rewrite (H c) by (left; reflexivity). discriminate.
Qed.

Lemma not_refused v :
  ~ refused_value v <->
  v <> ""%string /\ all_digits v /\ decimal_value (leading_digits v) <= size_max.
Proof.
  unfold refused_value. split.
  - intros H. split; [tauto|]. split; [|lia].
    intros c Hc. destruct (isdigit (char_to_int c)) eqn:E; [reflexivity|].
    exfalso. apply H. right. left. exists c. split; [exact Hc|].
    intros D. apply isdigit_decimal in D. congruence.
  - intros (H1 & H2 & H3) [E|[(c & Hc & D)|B]].
    + contradiction.
    + apply D, isdigit_decimal, H2, Hc.
    + lia.
Qed.

Lemma parseParam_accepts (args : list string) (param v : string)
    (rest : list string) (setting : Z) :
  after_flag param args = Some (v :: rest) -> ~ refused_value v ->
  parseParam args param setting
  = (""%string, true, decimal_value (leading_digits v)).
Proof.
  intros Ha H. apply not_refused in H. destruct H as (H1 & H2 & H3).
  unfold parseParam. rewrite Ha. unfold from_chars.
  pose proof (leading_digits_nonempty v H1 H2) as Hne.
  destruct (leading_digits v) as [|d ds]; [congruence|].
  destruct (Z.leb_spec (decimal_value (d :: ds)) size_max); [|lia].
  destruct (leading_digits_all v H2) as [_ ->]. reflexivity.
Qed.

(** [parseParam] accepts the value after the first occurrence of a flag
    exactly when it is not empty, has decimal digits only and is at most
    [2^64 - 1]; the setting then becomes the number the digits spell.  Zero
    and values with leading zeros are accepted. *)
Theorem flag_value_accepted (args : list string) (param v : string)
    (rest : list string) (setting : Z) :
  after_flag param args = Some (v :: rest) ->
  ((parseParam args param setting).1.2 = true <-> ~ refused_value v)
  /\ (~ refused_value v ->
      parseParam args param setting
      = (""%string, true, decimal_value (leading_digits v))).
Proof.
  intros Ha. split; [|apply (parseParam_accepts _ _ _ rest _ Ha)]. split.
  - intros Ht Hr.
    destruct (parseParam_refuses args param setting v rest Ha Hr) as (s' & E).
    rewrite E in Ht. discriminate.
  - intros H. rewrite (parseParam_accepts _ _ _ rest setting Ha H). reflexivity.
Qed.

Lemma flag_value_accepted_witness :
  parseParam ["histogrammer"; "text"; "-r"; "007"]%string "-r" 10
  = (""%string, true, 7).
Proof.
  destruct (flag_value_accepted ["histogrammer"; "text"; "-r"; "007"]%string
              "-r" "007" [] 10 eq_refl) as [_ H].
  apply H. apply not_refused. split; [discriminate|]. split.
  - intros c Hc. simpl in Hc.
    repeat (destruct Hc as [<-|Hc]; [reflexivity|]). destruct Hc.
  - vm_compute. discriminate.
Defined.

Lemma parseParam_fine argv param default_ :
  flag_fine param argv ->
  parseParam argv param default_ = (""%string, true, setting_of param default_ argv).
Proof.
  unfold flag_fine, setting_of. intros H.
  destruct (after_flag param argv) as [[|v rest]|] eqn:E.
  - destruct H.
  - apply (parseParam_accepts argv param v rest default_ E H).
  - unfold parseParam. rewrite E. reflexivity.
Qed.

(** When the file opens and each flag is absent or has an accepted value, the
    program runs the core on the text of the file, with 10 rows unless [-r]
    says otherwise and a tick every 3 rows unless [-s] says otherwise; it
    writes what the core writes and returns 0 when the core reaches its
    end. *)
Theorem main_runs_core (libm : Z -> double) (fs : string -> option string)
    (prog filename input : string) (args : list string) :
  let argv := prog :: filename :: args in
  ~ has_help argv ->
  fs filename = Some input ->
  flag_fine "-r" argv -> flag_fine "-s" argv ->
  main libm fs argv
  = Run (core libm input (setting_of "-r" 10 argv) (setting_of "-s" 3 argv)).1
        [filename]
        (match (core libm input (setting_of "-r" 10 argv)
                     (setting_of "-s" 3 argv)).2 with
         | Ret _ => Ret 0
         | Fault f => Fault f
         end).
Proof.
  intros argv Hhelp Hf Hr Hs. unfold argv in *.
  rewrite main_after_checks by assumption. rewrite Hf.
  rewrite (parseParam_fine _ "-r" 10 Hr), (parseParam_fine _ "-s" 3 Hs).
  simpl negb. cbv iota.
  destruct (core libm input _ _) as [out st]. reflexivity.
Qed.

Lemma main_runs_core_witness :
  main (fun _ => Fin 0) (fun _ => Some "a"%string)
       ["histogrammer"; "text"; "-r"; "1"]%string
  = Run (core (fun _ => Fin 0) "a"
              (setting_of "-r" 10 ["histogrammer"; "text"; "-r"; "1"]%string)
              (setting_of "-s" 3 ["histogrammer"; "text"; "-r"; "1"]%string)).1
        ["text"%string]
        (match (core (fun _ => Fin 0) "a"
                  (setting_of "-r" 10 ["histogrammer"; "text"; "-r"; "1"]%string)
                  (setting_of "-s" 3 ["histogrammer"; "text"; "-r"; "1"]%string)).2 with
         | Ret _ => Ret 0
         | Fault f => Fault f
         end).
Proof.
  assert (Hh : ~ has_help ["histogrammer"; "text"; "-r"; "1"]%string).
  { unfold has_help. intros [E|[E|[E|[E|E]]]]; try discriminate E. exact E. }
  assert (Hr : flag_fine "-r" ["histogrammer"; "text"; "-r"; "1"]%string).
  { change (~ refused_value "1"). apply not_refused.
    split; [discriminate|]. split.
    - intros c Hc. destruct Hc as [<-|[]]. reflexivity.
    - vm_compute. discriminate. }
  exact (main_runs_core (fun _ => Fin 0) (fun _ => Some "a"%string)
           "histogrammer" "text" "a" ["-r"; "1"]%string Hh eq_refl Hr I).
Defined.

(** ** More on counting *)

Lemma occurrences_perm k l1 l2 :
  Permutation l1 l2 -> occurrences k l1 = occurrences k l2.
Proof.
  induction 1 as [|x l1 l2 _ IH|x y l|l1 l2 l3 _ IH1 _ IH2]; simpl; lia.
Qed.

Lemma occurrences_member k c l :
  In c l -> fold_case c = Some k -> 1 <= occurrences k l.
Proof.
  intros Hin Hc. induction l as [|a l IH]; [destruct Hin|].
  simpl. pose proof (occurrences_range k l).
  destruct Hin as [->|Hin].
  - destruct (decide (fold_case c = Some k)); [lia|contradiction].
  - specialize (IH Hin). destruct (decide (fold_case a = Some k)); lia.
Qed.

Lemma strlen_list s : strlen s = Z.of_nat (length (list_ascii_of_string s)).
Proof.
  rewrite <- (string_of_list_ascii_of_string s) at 1. apply strlen_of_list.
Qed.

Lemma max_bin_ext (h1 h2 : gmap ascii Z) :
  (forall k, bin h1 k = bin h2 k) -> max_bin h1 = max_bin h2.
Proof.
  intros H. unfold max_bin. f_equal.
  induction (list_ascii_of_string lower_case) as [|a l IH]; [reflexivity|].
  rewrite !fmap_cons. f_equal; [apply H|exact IH].
Qed.

(** The histogram does not depend on the order of the characters: two texts
    with the same characters, in any order, give the same bins and the same
    [peak]. *)
Theorem count_order_independent (s t : string) :
  strlen s <= max_size ->
  Permutation (list_ascii_of_string s) (list_ascii_of_string t) ->
  (forall k, bin (count_letters s).1 k = bin (count_letters t).1 k)
  /\ (count_letters s).2 = (count_letters t).2.
Proof.
  intros Hs Hp.
  assert (Ht : strlen t <= max_size).
  { rewrite strlen_list in *. rewrite <- (Permutation_length Hp). exact Hs. }
  destruct (count_letters s) as [h1 p1] eqn:E1.
  destruct (count_letters t) as [h2 p2] eqn:E2.
  destruct (count_letters_state s Hs h1 p1 E1) as (O1 & _ & M1).
  destruct (count_letters_state t Ht h2 p2 E2) as (O2 & _ & M2).
  assert (Hb : forall k, bin h1 k = bin h2 k).
  { intros k. rewrite O1, O2. apply occurrences_perm, Hp. }
  split; [exact Hb|]. simpl. rewrite M1, M2. apply max_bin_ext, Hb.
Qed.

Lemma count_order_independent_witness :
  (count_letters "listen").2 = (count_letters "silent").2.
Proof.
  apply (count_order_independent "listen" "silent"); [vm_compute; discriminate|].
  simpl.
  (* l i s t e n  ~  s i l e n t *)
  apply Permutation_cons_app with (l1 := ["s"; "i"]%char) (l2 := ["e"; "n"; "t"]%char).
  apply Permutation_cons_app with (l1 := ["s"]%char) (l2 := ["e"; "n"; "t"]%char).
  apply perm_skip.
  apply Permutation_cons_app with (l1 := ["e"; "n"]%char) (l2 := []).
  apply Permutation_refl.
Defined.

(** [peak] is at most the length of the text, every bin is at most [peak],
    and [peak] is zero exactly when the text has no letter. *)
Theorem peak_bounds (input : string) (hist : gmap ascii Z) (peak : Z) :
  strlen input <= max_size ->
  count_letters input = (hist, peak) ->
  0 <= peak <= strlen input
  /\ (forall k, bin hist k <= peak)
  /\ (peak = 0 <-> forall c, In c (list_ascii_of_string input) -> ~ is_letter c).
Proof.
  intros Hlen E.
  destruct (count_letters_state input Hlen hist peak E) as (Hocc & Hb & Hmax).
  assert (Hl : Z.of_nat (length (list_ascii_of_string input)) <= max_size)
    by (rewrite <- strlen_list; exact Hlen).
  destruct (count_invariant _ Hl hist peak E) as (_ & _ & Hw).
  split; [|split].
  - split; [specialize (Hb "a"%char); lia|].
    destruct Hw as [->|(k & _ & <-)]; [apply strlen_nonneg|].
    rewrite Hocc, strlen_list. apply occurrences_range.
  - intros k. apply Hb.
  - split.
    + intros Hz c Hc Hletter. unfold is_letter in Hletter.
      destruct (fold_case c) as [k|] eqn:Ec; [|congruence].
      pose proof (occurrences_member k c _ Hc Ec) as H1.
      rewrite <- Hocc in H1. specialize (Hb k). lia.
    + intros Hno. rewrite Hmax. unfold max_bin.
      apply Z.le_antisymm; [|apply foldr_max_nonneg].
      apply foldr_max_bound; [lia|]. apply Forall_forall. intros x Hx.
      apply list_elem_of_fmap in Hx. destruct Hx as (k & -> & _).
      rewrite Hocc, occurrences_none; [lia|].
      intros c Hc. specialize (Hno c Hc). unfold is_letter in Hno.
      destruct (fold_case c); [exfalso; apply Hno; discriminate|reflexivity].
Qed.

Lemma peak_bounds_witness :
  0 <= (count_letters "Hello").2 <= 5.
Proof.
  destruct (count_letters "Hello") as [hist peak] eqn:E.
  destruct (peak_bounds "Hello" hist peak) as (H & _);
    [vm_compute; discriminate|exact E|exact H].
Defined.

(** ** More on the rows *)

Section RowRange.

Variables rows peak : Z.
Hypothesis rows_range : 1 <= rows <= size_max.
Hypothesis peak_range : 0 <= peak <= size_max.

Lemma nearest_rows_pos : 0 < nearest rows.
Proof. pose proof (nearest_lower rows ltac:(lia)). pose proof scale_pos. lia. Qed.

Lemma level_bottom : level rows peak 0 = 0.
Proof.
  unfold level, fraction. rewrite nearest_zero, Z.mul_0_l.
  rewrite (round_pos_zero _ nearest_rows_pos), Z.mul_0_l.
  apply round_pos_zero, scale_pos.
Qed.

Lemma fraction_top : fraction rows rows = scale.
Proof.
  unfold fraction. pose proof nearest_rows_pos.
  rewrite <- (Z.mul_1_r (nearest rows)) at 2.
  rewrite round_pos_scale by lia.
  apply round_pos_exact, (representable_pow2 1074). lia.
Qed.

Lemma level_top : level rows peak rows = nearest peak.
Proof.
  unfold level. rewrite fraction_top.
  rewrite <- (Z.mul_1_r scale) at 2.
  rewrite round_pos_scale by (pose proof scale_pos; lia).
  apply round_pos_exact, nearest_representable. lia.
Qed.

End RowRange.

(** The rows divide the range from 0 to [peak]: the bottom row starts at 0,
    each row ends where the next one starts, the top row ends at [peak]
    (as a double), and no row ends below its start. *)
Theorem rows_cover_range (rows peak : Z) :
  1 <= rows <= size_max -> 0 <= peak <= size_max ->
  rowFloor rows peak 0 = Fin 0
  /\ rowCeil rows peak (rows - 1) = of_Z peak
  /\ (forall r, 0 <= r < rows -> rowCeil rows peak r = rowFloor rows peak (r + 1))
  /\ (forall r, 0 <= r < rows ->
      fle (rowFloor rows peak r) (rowCeil rows peak r) = true).
Proof.
  intros Hrows Hp. split; [|split; [|split]].
  - rewrite (rowFloor_level rows peak Hrows Hp 0) by lia.
    rewrite (level_bottom rows peak Hrows). reflexivity.
  - rewrite (rowCeil_level rows peak Hrows Hp (rows - 1)) by lia.
    replace (rows - 1 + 1) with rows by lia.
    rewrite (level_top rows peak Hrows Hp), of_Z_fin by assumption. reflexivity.
  - intros r Hr. rewrite (rowCeil_level rows peak Hrows Hp r Hr).
    rewrite (rowFloor_level rows peak Hrows Hp (r + 1)) by lia. reflexivity.
  - intros r Hr. rewrite (rowCeil_level rows peak Hrows Hp r Hr).
    rewrite (rowFloor_level rows peak Hrows Hp r) by lia.
    simpl. apply Z.leb_le.
    apply (level_mono rows peak Hrows Hp r (r + 1)); lia.
Qed.

Lemma rows_cover_range_witness :
  rowFloor 4 5 0 = Fin 0 /\ rowCeil 4 5 3 = of_Z 5.
Proof.
  destruct (rows_cover_range 4 5) as (H1 & H2 & _);
    [unfold size_max; lia|unfold size_max; lia|].
  split; [exact H1|exact H2].
Defined.

(** A letter that does not occur in the text has no marker on any row; a
    letter that occurs has one on the bottom row. *)
Theorem absent_and_present_letters (hist : gmap ascii Z) (rows peak c : Z) :
  1 <= rows <= size_max -> 0 <= peak <= size_max ->
  (bin hist (int_to_char c) = 0 ->
   forall r, 0 <= r < rows -> marker hist (rowFloor rows peak r) c = " "%char)
  /\ (1 <= bin hist (int_to_char c) <= size_max ->
      marker hist (rowFloor rows peak 0) c = "*"%char).
Proof.
  intros Hrows Hp. split.
  - intros Hz r Hr. unfold marker. rewrite Hz.
    rewrite (rowFloor_level rows peak Hrows Hp r) by lia.
    pose proof (level_range rows peak Hrows Hp r ltac:(lia)) as Hl.
    rewrite of_Z_fin by (unfold size_max; lia). rewrite nearest_zero. simpl.
    destruct (Z.ltb_spec (level rows peak r) 0); [lia|reflexivity].
  - intros Hb. unfold marker.
    rewrite (rowFloor_level rows peak Hrows Hp 0) by lia.
    rewrite (level_bottom rows peak Hrows).
    rewrite of_Z_fin by lia.
    pose proof (nearest_lower _ (proj1 Hb)). pose proof scale_pos. simpl.
    destruct (Z.ltb_spec 0 (nearest (bin hist (int_to_char c)))); [reflexivity|lia].
Qed.

Lemma absent_and_present_letters_witness :
  marker (count_letters "aab").1 (rowFloor 10 2 0) 98 = "*"%char.
Proof.
  destruct (absent_and_present_letters (count_letters "aab").1 10 2 98) as [_ H];
    [unfold size_max; lia|unfold size_max; lia|].
  apply H. vm_compute. split; discriminate.
Defined.

Lemma representable_normal p :
  representable p -> 2 ^ 52 <= p ->
  exists m s, 2 ^ 52 <= m <= 2 ^ 53 /\ 0 <= s /\ p = m * 2 ^ s.
Proof.
  intros (m & s & Hm & Hs & ->) Hp.
  destruct (Z_le_gt_dec (2 ^ 52) m) as [Hle|Hgt]; [exists m, s; lia|].
  assert (Hm0 : 0 < m).
  { destruct (Z.eq_dec m 0) as [->|]; [rewrite Z.mul_0_l in Hp; lia|lia]. }
  pose proof (Z.log2_spec m Hm0) as [Hlo Hhi].
  assert (Hl : Z.log2 m < 52).
  { apply Z.log2_lt_pow2; lia. }
  pose proof (Z.log2_nonneg m) as Hn.
  set (j := 52 - Z.log2 m) in *.
  assert (Hj : j <= s).
  { destruct (Z_le_gt_dec j s) as [|Hgt']; [assumption|exfalso].
    assert (2 ^ s <= 2 ^ (j - 1)) by (apply Z.pow_le_mono_r; lia).
    assert (m * 2 ^ s < 2 ^ (Z.log2 m + 1) * 2 ^ (j - 1)).
    { assert (0 < 2 ^ s) by (apply Z.pow_pos_nonneg; lia). nia. }
    rewrite <- Z.pow_add_r in H0 by lia.
    replace (Z.log2 m + 1 + (j - 1)) with 52 in H0 by (unfold j; lia). lia. }
  exists (m * 2 ^ j), (s - j). split; [|split; [lia|]].
  - assert (E1 : 2 ^ 52 = 2 ^ Z.log2 m * 2 ^ j)
      by (rewrite <- Z.pow_add_r by lia; f_equal; unfold j; lia).
    assert (E2 : 2 ^ 53 = 2 ^ (Z.log2 m + 1) * 2 ^ j)
      by (rewrite <- Z.pow_add_r by lia; f_equal; unfold j; lia).
    assert (0 < 2 ^ j) by (apply Z.pow_pos_nonneg; lia).
    rewrite E1 at 1. rewrite E2. split.
    + apply Z.mul_le_mono_nonneg_r; lia.
    + apply Z.mul_le_mono_nonneg_r; lia.
  - rewrite <- Z.mul_assoc, <- Z.pow_add_r by lia. do 2 f_equal. lia.
Qed.

(** With at most [2^52] rows, the top row starts strictly below [peak]. *)
Lemma level_below_peak (rows peak : Z) :
  1 <= rows <= 2 ^ 52 -> 1 <= peak <= size_max ->
  level rows peak (rows - 1) < nearest peak.
Proof.
  intros Hrows Hp. pose proof scale_pos as Hs.
  assert (Hq : fraction rows (rows - 1) <= scale - 2 ^ 1022).
  { unfold fraction. rewrite !nearest_exact by lia.
    apply round_pos_le.
    - apply Z.mul_nonneg_nonneg; nia.
    - nia.
    - exists (2 ^ 52 - 1), 1022. split; [lia|split; [lia|reflexivity]].
    - assert (E : scale = 2 ^ 52 * 2 ^ 1022) by reflexivity.
      assert (0 < 2 ^ 1022) by reflexivity.
      assert ((rows - 1) * scale <= (scale - 2 ^ 1022) * rows) by (rewrite E; nia).
      rewrite (Z.mul_assoc (scale - 2 ^ 1022)).
      apply Z.mul_le_mono_nonneg_r; lia. }
  assert (Hq0 : 0 <= fraction rows (rows - 1)).
  { apply (fraction_range rows); unfold size_max; lia. }
  pose proof (nearest_representable peak ltac:(lia)) as Hr.
  pose proof (nearest_lower peak ltac:(lia)) as Hl.
  destruct (representable_normal _ Hr) as (m & s & Hm & Hs' & E).
  { etransitivity; [|exact Hl]. unfold scale. apply Z.pow_le_mono_r; lia. }
  assert (P2 : 0 < 2 ^ s) by (apply Z.pow_pos_nonneg; lia).
  apply Z.le_lt_trans with ((m - 1) * 2 ^ s); [|rewrite E; nia].
  unfold level. apply round_pos_le.
  - apply Z.mul_nonneg_nonneg; lia.
  - exact Hs.
  - exists (m - 1), s. lia.
  - rewrite E.
    assert (Es : scale = 2 ^ 52 * 2 ^ 1022) by reflexivity.
    assert (P3 : 0 < 2 ^ 1022) by reflexivity.
    apply Z.le_trans with ((scale - 2 ^ 1022) * (m * 2 ^ s)).
    { apply Z.mul_le_mono_nonneg_r; nia. }
    assert (2 ^ 1022 * m >= scale) by (rewrite Es; nia).
    nia.
Qed.

(** The bar of a most frequent letter reaches the top: with at most [2^52]
    rows, a letter whose count is [peak], at least 1, has a marker on every
    row. *)
Theorem tallest_bar_reaches_top (hist : gmap ascii Z) (rows peak c r : Z) :
  1 <= rows <= 2 ^ 52 -> 1 <= peak <= size_max ->
  bin hist (int_to_char c) = peak ->
  0 <= r < rows ->
  marker hist (rowFloor rows peak r) c = "*"%char.
Proof.
  intros Hrows Hp Hb Hr.
  assert (Hrows' : 1 <= rows <= size_max) by (unfold size_max; lia).
  assert (Hp' : 0 <= peak <= size_max) by lia.
  unfold marker. rewrite Hb.
  rewrite (rowFloor_level rows peak Hrows' Hp' r) by lia.
  rewrite of_Z_fin by lia. simpl.
  pose proof (level_mono rows peak Hrows' Hp' r (rows - 1) ltac:(lia) ltac:(lia)).
  pose proof (level_below_peak rows peak Hrows Hp).
  destruct (Z.ltb_spec (level rows peak r) (nearest peak)); [reflexivity|lia].
Qed.

Lemma tallest_bar_reaches_top_witness :
  marker (count_letters "aabbbccccc").1 (rowFloor 4 5 3) 99 = "*"%char.
Proof.
  apply (tallest_bar_reaches_top (count_letters "aabbbccccc").1 4 5 99 3);
    [lia|unfold size_max; lia|reflexivity|lia].
Defined.

(** The tick values do not decrease from a row to the rows above it, and
    none is above [peak] (as a double); for a [peak] of at most [2^53] none is
    above [peak] itself. *)
Theorem tick_values_monotone (rows peak r' r : Z) :
  1 <= rows <= size_max -> 0 <= peak <= max_size ->
  0 <= r' <= r -> r < rows ->
  exists v' v,
    cast_size (fmul half (fadd (rowFloor rows peak r') (rowCeil rows peak r')))
    = Ret v'
    /\ cast_size (fmul half (fadd (rowFloor rows peak r) (rowCeil rows peak r)))
       = Ret v
    /\ 0 <= v' <= v
    /\ v <= integer_part (of_Z peak)
    /\ (peak <= 2 ^ 53 -> v <= peak).
Proof.
  intros Hrows Hp Hr' Hr.
  pose proof (peak_size peak Hp) as Hps. pose proof scale_pos as Hs.
  destruct (tick_cast rows peak Hrows Hp r' ltac:(lia)) as [C1 B1].
  destruct (tick_cast rows peak Hrows Hp r ltac:(lia)) as [C2 B2].
  exists (midpoint rows peak r' / scale), (midpoint rows peak r / scale).
  split; [exact C1|]. split; [exact C2|]. split; [|split; [lia|]].
  - split; [lia|]. apply Z.div_le_mono; [lia|].
    unfold midpoint.
    pose proof (level_mono rows peak Hrows Hps r' r ltac:(lia) ltac:(lia)) as M1.
    pose proof (level_mono rows peak Hrows Hps (r' + 1) (r + 1) ltac:(lia) ltac:(lia)) as M2.
    pose proof (level_range rows peak Hrows Hps r' ltac:(lia)) as R1.
    pose proof (level_range rows peak Hrows Hps (r' + 1) ltac:(lia)) as R2.
    assert (P : 0 < 2 ^ 1073) by reflexivity.
    assert (S1 : round_pos (level rows peak r' + level rows peak (r' + 1)) 1
                 <= round_pos (level rows peak r + level rows peak (r + 1)) 1)
      by (apply round_pos_mono; lia).
    pose proof (round_pos_nonneg (level rows peak r' + level rows peak (r' + 1)) 1
                  ltac:(lia) ltac:(lia)) as N1.
    apply round_pos_mono; [nia|lia|lia|].
    apply Z.mul_le_mono_nonneg_r; [lia|nia].
  - intros H53. rewrite (of_Z_fin peak Hps) in B2. unfold integer_part, units in B2.
    rewrite nearest_exact, Z.div_mul in B2 by lia. lia.
Qed.

Lemma tick_values_monotone_witness :
  exists v' v,
    cast_size (fmul half (fadd (rowFloor 4 5 0) (rowCeil 4 5 0))) = Ret v'
    /\ cast_size (fmul half (fadd (rowFloor 4 5 3) (rowCeil 4 5 3))) = Ret v
    /\ 0 <= v' <= v.
Proof.
  destruct (tick_values_monotone 4 5 0 3) as (v' & v & H1 & H2 & H3 & _);
    [unfold size_max; lia|unfold max_size; lia|lia|lia|].
  exists v', v. split; [exact H1|]. split; [exact H2|exact H3].
Defined.

(** ** The core as a whole *)

Lemma peak_of_count input hist peak :
  strlen input <= max_size -> count_letters input = (hist, peak) ->
  0 <= peak <= max_size.
Proof.
  intros Hlen E.
  destruct (count_letters_state input Hlen hist peak E) as (Hocc & Hb & _).
  assert (Hl : Z.of_nat (length (list_ascii_of_string input)) <= max_size).
  { rewrite <- (string_of_list_ascii_of_string input) in Hlen.
    rewrite strlen_of_list in Hlen. exact Hlen. }
  destruct (count_invariant _ Hl hist peak E) as (_ & _ & Hw).
  split; [specialize (Hb "a"%char); lia|].
  destruct Hw as [->|(k & _ & <-)]; [unfold max_size; lia|].
  rewrite Hocc. pose proof (occurrences_range k (list_ascii_of_string input)). lia.
Qed.

Lemma peak_without_letter input hist peak :
  strlen input <= max_size -> count_letters input = (hist, peak) ->
  (forall c, In c (list_ascii_of_string input) -> ~ is_letter c) ->
  peak = 0.
Proof.
  intros Hlen E Hno.
  destruct (count_letters_state input Hlen hist peak E) as (Hocc & Hb & Hmax).
  rewrite Hmax. unfold max_bin.
  apply Z.le_antisymm; [|apply foldr_max_nonneg].
  apply foldr_max_bound; [lia|]. apply Forall_forall. intros x Hx.
  apply list_elem_of_fmap in Hx. destruct Hx as (k & -> & _).
  rewrite Hocc, occurrences_none; [lia|].
  intros c Hc. specialize (Hno c Hc). unfold is_letter in Hno.
  destruct (fold_case c); [exfalso; apply Hno; discriminate|reflexivity].
Qed.

(** On a text without a letter, the empty text among them, the core stops
    at the computation of [digits] before anything is written: the
    conversion of minus infinity to [size_t] has no defined result. *)
Theorem letterless_text_faults (libm : Z -> double) (input : string)
    (rows tickStride : Z) :
  strlen input <= max_size ->
  (forall c, In c (list_ascii_of_string input) -> ~ is_letter c) ->
  core libm input rows tickStride = (""%string, Fault UB_float_cast).
Proof.
  intros Hlen Hno. unfold core.
  destruct (count_letters input) as [hist peak] eqn:E.
  rewrite (peak_without_letter input hist peak Hlen E Hno).
  unfold digits. rewrite of_Z_zero. reflexivity.
Qed.

Lemma letterless_text_faults_witness :
  core (fun _ => Fin 0) "123 456" 10 3 = (""%string, Fault UB_float_cast).
Proof.
  apply letterless_text_faults; [vm_compute; discriminate|].
  intros c Hc. simpl in Hc.
  repeat (destruct Hc as [<-|Hc]; [vm_compute; intros H; apply H; reflexivity|]).
  destruct Hc.
Defined.

Lemma row_indices_head rows :
  1 <= rows -> exists rs, row_indices rows = (rows - 1) :: rs.
Proof.
  intros H. rewrite row_indices_order by lia.
  rewrite seqZ_cons by lia. rewrite fmap_cons. eexists. f_equal. lia.
Qed.

(** A tick stride of zero, which [parseParam] accepts, stops the program at
    the first row with a division by zero, before anything is written. *)
Theorem zero_stride_faults (libm : Z -> double) (input : string)
    (hist : gmap ascii Z) (d rows peak : Z) :
  1 <= rows ->
  draw_rows d hist rows 0 peak = (""%string, Fault UB_div_zero)
  /\ (digits libm (count_letters input).2 = Ret d ->
      core libm input rows 0 = (""%string, Fault UB_div_zero)).
Proof.
  intros Hrows.
  assert (D : forall h p, draw_rows d h rows 0 p = (""%string, Fault UB_div_zero)).
  { intros h p. unfold draw_rows.
    destruct (row_indices_head rows Hrows) as (rs & ->). reflexivity. }
  split; [apply D|]. intros Hd. unfold core.
  destruct (count_letters input) as [h p]. simpl in Hd. rewrite Hd, D. reflexivity.
Qed.

Lemma zero_stride_faults_witness :
  core (fun _ => Fin 0) "a" 2 0 = (""%string, Fault UB_div_zero).
Proof.
  destruct (zero_stride_faults (fun _ => Fin 0) "a" ∅ 1 2 0) as [_ H]; [lia|].
  apply H. vm_compute. reflexivity.
Defined.

Lemma strlen_lines (line : Z -> string) (w : Z) (rs : list Z) :
  (forall r, r ∈ rs -> strlen (line r) = w) ->
  strlen (foldr String.append ""%string (line <$> rs)) = Z.of_nat (length rs) * w.
Proof.
  induction rs as [|r rs IH]; intros H; [reflexivity|].
  rewrite fmap_cons. simpl foldr. simpl length.
  rewrite strlen_app, (H r) by apply list_elem_of_here.
  rewrite IH by (intros r' Hr'; apply H, list_elem_of_further, Hr'). lia.
Qed.

Lemma strlen_markers hist f : strlen (markers hist f) = 26.
Proof. unfold markers. rewrite strlen_of_list, length_fmap. reflexivity. Qed.

Lemma draw_rows_body (d : Z) (hist : gmap ascii Z) (rows tickStride peak : Z) :
  1 <= rows <= size_max -> 1 <= tickStride -> 0 <= peak <= max_size ->
  strlen (to_string (integer_part (of_Z peak))) <= d <= max_size ->
  exists body,
    draw_rows d hist rows tickStride peak = (body, Ret tt)
    /\ strlen body = rows * (d + 28).
Proof.
  intros Hrows Hs Hp Hd.
  set (field := fun r => match tickField d rows tickStride peak r with
                         | Ret s => s
                         | Fault _ => ""%string
                         end).
  set (line := fun r => field r +:+ "|"
                        +:+ markers hist (rowFloor rows peak r) +:+ nl).
  exists (foldr String.append ""%string (line <$> row_indices rows)). split.
  - unfold draw_rows. apply write_each_lines.
    intros r Hr. apply row_indices_range in Hr.
    destruct (tickField_width d rows tickStride peak r Hrows Hs Hp Hr Hd)
      as (s & Ht & _).
    unfold draw_row, line, field. rewrite Ht. reflexivity.
  - rewrite (strlen_lines line (d + 28)).
    + unfold row_indices. rewrite length_reverse, length_seqZ. lia.
    + intros r Hr. apply row_indices_range in Hr.
      destruct (tickField_width d rows tickStride peak r Hrows Hs Hp Hr Hd)
        as (s & Ht & Hw).
      unfold line, field. rewrite Ht.
      rewrite !strlen_app, strlen_markers, Hw.
      change (strlen "|") with 1. change (strlen nl) with 1. lia.
Qed.

(** A run of the core to its end.  When [digits] is a width [d] that holds
    the digits of [peak], with at least one row and a tick stride of at
    least one, the core writes [rows] lines of [d + 27] characters and a
    newline, then the axis, [d] spaces, a plus and 26 dashes, then the
    letters, [d] spaces, a bar and the alphabet: [rows + 2] lines of the same
    width. *)
Theorem core_output (libm : Z -> double) (input : string) (hist : gmap ascii Z)
    (rows tickStride peak d : Z) :
  strlen input <= max_size ->
  count_letters input = (hist, peak) ->
  digits libm peak = Ret d ->
  strlen (to_string (integer_part (of_Z peak))) <= d <= max_size - 27 ->
  1 <= rows <= size_max -> 1 <= tickStride ->
  exists body,
    draw_rows d hist rows tickStride peak = (body, Ret tt)
    /\ strlen body = rows * (d + 28)
    /\ core libm input rows tickStride
       = (body +:+ (fill d " " +:+ "+" +:+ fill 26 "-" +:+ nl)
               +:+ ((fill d " " +:+ "|" +:+ lower_case) +:+ nl),
          Ret tt)
    /\ strlen (fill d " " +:+ "+" +:+ fill 26 "-" +:+ nl) = d + 28
    /\ strlen ((fill d " " +:+ "|" +:+ lower_case) +:+ nl) = d + 28.
Proof.
  intros Hlen E Hdig Hd Hrows Hs.
  pose proof (peak_of_count input hist peak Hlen E) as Hp.
  pose proof (strlen_nonneg (to_string (integer_part (of_Z peak)))) as Hw0.
  destruct (draw_rows_body d hist rows tickStride peak Hrows Hs Hp ltac:(lia))
    as (body & Hb & Hl).
  exists body. split; [exact Hb|]. split; [exact Hl|]. split; [|split].
  - unfold core. rewrite E, Hdig, Hb.
    unfold axis_line. destruct (Z.leb_spec d max_size); [|lia].
    unfold label_line, insert_spaces.
    change (strlen ("|" +:+ abc)) with 27.
    destruct (Z.leb_spec (d + 27) max_size); [|lia].
    reflexivity.
  - rewrite !strlen_app, !strlen_fill by lia.
    change (strlen "+") with 1. change (strlen nl) with 1. lia.
  - rewrite !strlen_app, !strlen_fill by lia.
    change (strlen "|") with 1. change (strlen nl) with 1.
    change (strlen lower_case) with 26. lia.
Qed.

Lemma core_output_witness :
  exists body,
    core (fun _ => Fin 0) "ab" 2 1
    = (body +:+ (fill 1 " " +:+ "+" +:+ fill 26 "-" +:+ nl)
            +:+ ((fill 1 " " +:+ "|" +:+ lower_case) +:+ nl), Ret tt).
Proof.
  destruct (core_output (fun _ => Fin 0) "ab" (count_letters "ab").1 2 1 1 1)
    as (body & _ & _ & H & _).
  - vm_compute. discriminate.
  - reflexivity.
  - vm_compute. reflexivity.
  - vm_compute. split; discriminate.
  - unfold size_max. lia.
  - lia.
  - exists body. exact H.
Defined.

(** ** The first occurrence of a flag, and the number of ticks *)

Lemma after_flag_first param pre rest :
  ~ In param pre -> after_flag param (pre ++ param :: rest) = Some rest.
Proof.
  induction pre as [|a pre IH]; intros H; simpl.
  - rewrite String.eqb_refl. reflexivity.
  - destruct (String.eqb_spec a param) as [->|_]; [exfalso; apply H; left; reflexivity|].
    apply IH. intros Hin. apply H. right. exact Hin.
Qed.

(** Only the first occurrence of a flag counts: what follows its value,
    a second occurrence of the flag among it, changes nothing, and neither
    does what comes before the flag. *)
Theorem first_occurrence_only (pre rest : list string) (param v : string)
    (setting : Z) :
  ~ In param pre ->
  parseParam (pre ++ param :: v :: rest) param setting
  = parseParam [param; v] param setting.
Proof.
  intros H. unfold parseParam.
  rewrite (after_flag_first param pre (v :: rest) H).
  simpl after_flag. rewrite String.eqb_refl. reflexivity.
Qed.

Lemma first_occurrence_only_witness :
  parseParam ["histogrammer"; "text"; "-r"; "5"; "-r"; "abc"]%string "-r" 10
  = parseParam ["-r"; "5"]%string "-r" 10.
Proof.
  apply (first_occurrence_only ["histogrammer"; "text"]%string ["-r"; "abc"]%string).
  simpl. intros [H|[H|H]]; try discriminate H. exact H.
Defined.

Lemma div_pred n s :
  1 <= n -> 1 <= s ->
  n / s = (n - 1) / s + (if n mod s =? 0 then 1 else 0).
Proof.
  intros Hn Hs.
  pose proof (Z.div_mod n s ltac:(lia)) as E.
  pose proof (Z.mod_pos_bound n s ltac:(lia)) as B.
  destruct (Z.eqb_spec (n mod s) 0) as [Hz|Hz].
  - assert ((n - 1) / s = n / s - 1); [|lia].
    symmetry. apply (Z.div_unique _ _ _ (s - 1)); lia.
  - assert ((n - 1) / s = n / s); [|lia].
    symmetry. apply (Z.div_unique _ _ _ (n mod s - 1)); lia.
Qed.

Lemma multiples_below (s : Z) (n : nat) :
  1 <= s ->
  Z.of_nat (length (List.filter (fun i => i mod s =? 0) (seqZ 0 (Z.of_nat n))))
  = match n with O => 0 | S m => Z.of_nat m / s + 1 end.
Proof.
  intros Hs. induction n as [|n IH]; [reflexivity|].
  rewrite seqZ_S, Z.add_0_l, List.filter_app, length_app, Nat2Z.inj_add, IH.
  assert (L : Z.of_nat (length (List.filter (fun i => i mod s =? 0) [Z.of_nat n]))
              = if Z.of_nat n mod s =? 0 then 1 else 0).
  { simpl. destruct (Z.of_nat n mod s =? 0); reflexivity. }
  rewrite L. clear L IH.
  destruct n as [|m].
  - change (Z.of_nat 0) with 0. rewrite Z.mod_0_l, Z.div_0_l by lia. reflexivity.
  - rewrite (div_pred (Z.of_nat (S m)) s) by lia.
    replace (Z.of_nat (S m) - 1) with (Z.of_nat m) by lia. lia.
Qed.

Lemma filter_fmap {A B : Type} (f : B -> bool) (g : A -> B) (l : list A) :
  List.filter f (g <$> l) = g <$> List.filter (fun x => f (g x)) l.
Proof.
  induction l as [|a l IH]; [reflexivity|].
  rewrite fmap_cons. simpl. destruct (f (g a)); [rewrite fmap_cons|]; rewrite IH; reflexivity.
Qed.

(** The number of rows with a tick is [(rows - 1) / tickStride + 1]: one on
    the top row and one every [tickStride] rows below it. *)
Theorem tick_count (rows tickStride : Z) :
  1 <= rows <= size_max -> 1 <= tickStride ->
  Z.of_nat (length (List.filter (has_tick rows tickStride) (row_indices rows)))
  = (rows - 1) / tickStride + 1.
Proof.
  intros Hrows Hs.
  rewrite row_indices_order by lia. rewrite filter_fmap, length_fmap.
  rewrite (List.filter_ext_in _ (fun i => i mod tickStride =? 0)).
  - pose proof (multiples_below tickStride (Z.to_nat rows) Hs) as M.
    rewrite Z2Nat.id in M by lia. rewrite M.
    destruct (Z.to_nat rows) as [|m] eqn:E; [lia|].
    replace (Z.of_nat m) with (rows - 1) by lia. reflexivity.
  - intros i Hi. apply list_elem_of_In, elem_of_seqZ in Hi.
    unfold has_tick. rewrite (drawTick_value rows Hrows tickStride) by lia.
    replace (rows - 1 - (rows - 1 - i)) with i by lia.
    destruct (i mod tickStride =? 0); reflexivity.
Qed.

Lemma tick_count_witness :
  Z.of_nat (length (List.filter (has_tick 10 3) (row_indices 10))) = 4.
Proof.
  rewrite (tick_count 10 3); [reflexivity|unfold size_max; lia|lia].
Defined.

(** ** The model of binary64 against the machine *)

(** [rowFloor] and the tick value of the embedding are, bit for bit, what
    the primitive floats compute, on a sample of rows and peaks. *)
Example binary64_agrees :
  forallb (fun '(rows, peak) =>
             forallb (fun r => rowFloor_agrees rows peak r
                               && midpoint_agrees rows peak r)
                     (seqZ 0 rows))
          [(3, 7); (1, 12345678901234567)]
  = true.
Proof. vm_compute. reflexivity. Qed.

(** [rowFloor] is a rounded number: with 49 rows and a peak of 49, the
    start of row 1 is just below 1, where the exact product is 1, and a
    letter that occurs once has a marker on that row. *)
Example rowFloor_rounded :
  flt (rowFloor 49 49 1) (of_Z 1) = true
  /\ to_spec (rowFloor 49 49 1) = S754_finite false 9007199254740991 (-53)
  /\ rowFloor_agrees 49 49 1 = true.
Proof. vm_compute. repeat split; reflexivity. Qed.
